(** * MotorControl: the motion core of the AeroVision stepper rig

    A shallow embedding of [src/motor_controller.py] (class
    [MotorController]) and of the [_home] handler of [src/manual_gui.py],
    with the properties of the motion core stated and proved over it.

    Numbers are modelled as the program has them: millimetres, the
    calibration factors and the step delay are Python floats, that is IEEE
    754 binary64 values, here Rocq's primitive [float] with its [+], [-] and
    [*]; step counts are Python integers, here [Z].  The [steppers] dict is
    a finite map from motor names to optional stepper objects.  Methods
    mutate the controller, drive the hardware and may raise; they are
    functions in a state-and-exception monad whose state holds the
    controller object, the hardware and the log of everything the program
    did to the outside world. *)

From Stdlib Require Import ZArith Floats Lia Bool.
From stdpp Require Import base option list strings gmap pretty.

Local Open Scope Z_scope.
#[local] Set Warnings "-inexact-float".

(** ** Python values *)

(** The constants of [Stepper]: the class of the stub mode (lines 21-29)
    and, on real hardware, the constants of [adafruit_motor.stepper]. *)
Inductive Stepper : Set :=
  | FORWARD | BACKWARD
  | SINGLE | DOUBLE | INTERLEAVE | MICROSTEP.

(** [getattr(Stepper, name)] for the names the class defines. *)
Definition getattr_Stepper (name : string) : option Stepper :=
  if String.eqb name "FORWARD" then Some FORWARD
  else if String.eqb name "BACKWARD" then Some BACKWARD
  else if String.eqb name "SINGLE" then Some SINGLE
  else if String.eqb name "DOUBLE" then Some DOUBLE
  else if String.eqb name "INTERLEAVE" then Some INTERLEAVE
  else if String.eqb name "MICROSTEP" then Some MICROSTEP
  else None.

(** The exceptions the modelled code can meet. [OSError] stands for
    whatever a stepper object's [onestep] raises when the bus fails. *)
Inductive exn : Set :=
  | ValueError | OverflowError | KeyError | AttributeError | OSError.

(** The nearest integer to [m * 2^e], ties going to the even neighbour. *)
Definition round_half_even (m : positive) (e : Z) : Z :=
  match e with
  | Zneg p =>
      let d := 2 ^ Zpos p in
      let q := Zpos m / d in
      match 2 * (Zpos m mod d) ?= d with
      | Lt => q
      | Gt => q + 1
      | Eq => if Z.even q then q else q + 1
      end
  | _ => Zpos m * 2 ^ e
  end.

(** [int(round(f))] on a float, read off its IEEE value: Python's
    one-argument [round] rounds to the nearest integer, half to even,
    returns an [int], and raises on a NaN ([ValueError]) and on an infinity
    ([OverflowError]). *)
Definition round_SF (v : spec_float) : exn + Z :=
  match v with
  | S754_nan => inl ValueError
  | S754_infinity _ => inl OverflowError
  | S754_zero _ => inr 0
  | S754_finite s m e => inr (cond_Zopp s (round_half_even m e))
  end.

Definition py_round (f : float) : exn + Z := round_SF (Prim2SF f).

(** A float that is a zero of either sign. *)
Definition is_zero (f : float) : Prop := ∃ s, Prim2SF f = S754_zero s.

(** A float that is neither a NaN nor an infinity. *)
Definition is_finite (f : float) : bool :=
  match Prim2SF f with
  | S754_zero _ | S754_finite _ _ _ => true
  | _ => false
  end.

(** [time.sleep(secs)] on a float, up to the moment it sleeps: what it
    raises, [None] when it sleeps and returns.  A NaN is refused with
    [ValueError].  The length is then taken in nanoseconds, [secs * 1e9]
    rounded away from zero to a whole number, which must fit a signed
    64-bit count ([OverflowError] otherwise, so for an infinity) and must
    not be negative ([ValueError]).  Rounding a float to a whole number
    changes none of these comparisons, so they are made on the product.
    (At exactly 2^63 ns some interpreter versions report the refusal as a
    [ValueError]; the length is refused in all of them.) *)
Definition sleep_error (secs : float) : option exn :=
  match Prim2SF secs with
  | S754_nan => Some ValueError
  | _ =>
      let ns := (secs * 1000000000)%float in
      if ((-9223372036854775808 <=? ns) && (ns <? 9223372036854775808))%float
      then (if (ns <? 0)%float then Some ValueError else None)
      else Some OverflowError
  end.

(** ** The controller object *)

(** [self.position], a dict that holds the two keys ["x"] and ["z"] from
    its creation on; every assignment in the program keeps both. *)
Record Position : Set := { pos_x : float; pos_z : float }.

Section Controller.

(** The hardware side.  [Handle] is a stepper object of the MotorKit,
    [HW] the state of the physical rig.  [REAL_HARDWARE] is the module's
    flag (set by the success of the imports), [MotorKit] the attributes
    of the object that [MotorKit()] returns ([None]: no such attribute;
    the constructor itself is taken to return), and [onestep h style
    direction] the method of the stepper object [h]: it acts on the rig
    and returns normally ([None]) or raises. *)
Context {Handle HW : Type}.
Variable REAL_HARDWARE : bool.
Variable MotorKit : string → option Handle.
Variable onestep : Handle → Stepper → Stepper → HW → option exn * HW.

Record MotorController : Type := {
  step_style : Stepper;
  step_delay : float;
  steps_per_mm_x : float;
  steps_per_mm_z : float;
  kit : option (string → option Handle);
  steppers : gmap string (option Handle);
  position : Position
}.

Definition set_position (p : Position) (mc : MotorController) :=
  {| step_style := step_style mc; step_delay := step_delay mc;
     steps_per_mm_x := steps_per_mm_x mc; steps_per_mm_z := steps_per_mm_z mc;
     kit := kit mc; steppers := steppers mc; position := p |}.

(** What the program does to the outside world, newest first. *)
Inductive event : Type :=
  | EvOnestep (name : string) (h : Handle) (style direction : Stepper)
      (* stepper_obj.onestep(style=, direction=) returned *)
  | EvOnestepRaised (name : string) (h : Handle) (style direction : Stepper) (e : exn)
      (* the same call raised [e] *)
  | EvStub (name : string) (direction : Stepper)
      (* print(f"[STUB] Step motor '{name}' dir={direction}") *)
  | EvSleep (delay : float)
      (* time.sleep(delay) *)
  | EvLabels (x z : float)
      (* the two position labels of the panel are rewritten *)
  | EvShowInfo (title message : string).
      (* messagebox.showinfo(title, message) *)

Record state : Type := { self : MotorController; hw : HW; out : list event }.

Definition set_self (mc : MotorController) (σ : state) :=
  {| self := mc; hw := hw σ; out := out σ |}.
Definition set_hw (w : HW) (σ : state) :=
  {| self := self σ; hw := w; out := out σ |}.
Definition emit (ev : event) (σ : state) :=
  {| self := self σ; hw := hw σ; out := ev :: out σ |}.

(** ** The monad of methods *)

(** A call returns, raises, or (a [while] loop given too little fuel)
    is cut short.  The state reached is kept in all three cases: Python
    undoes nothing when an exception propagates. *)
Inductive outcome (A : Type) : Type :=
  | Ok (a : A)
  | Raise (e : exn)
  | OutOfFuel.
Global Arguments Ok {A} a.
Global Arguments Raise {A} e.
Global Arguments OutOfFuel {A}.

Definition M (A : Type) : Type := state → outcome A * state.

Definition raise {A} (e : exn) : M A := λ σ, (Raise e, σ).
Definition out_of_fuel {A} : M A := λ σ, (OutOfFuel, σ).

#[global] Instance M_ret : MRet M := λ A a σ, (Ok a, σ).
#[global] Instance M_bind : MBind M := λ A B f m σ,
  match m σ with
  | (Ok a, σ') => f a σ'
  | (Raise e, σ') => (Raise e, σ')
  | (OutOfFuel, σ') => (OutOfFuel, σ')
  end.

Definition get_self : M MotorController := λ σ, (Ok (self σ), σ).
Definition put_position (p : Position) : M unit := λ σ,
  (Ok tt, set_self (set_position p (self σ)) σ).
Definition tell (ev : event) : M unit := λ σ, (Ok tt, emit ev σ).
Definition lift {A} (r : exn + A) : M A :=
  match r with inl e => raise e | inr a => mret a end.

(** [for nm in names: body(nm)] *)
Fixpoint for_each {A} (l : list A) (body : A → M unit) : M unit :=
  match l with
  | [] => mret tt
  | a :: l' => body a ;; for_each l' body
  end.

(** [for _ in range(n): body] *)
Fixpoint for_range (n : nat) (body : M unit) : M unit :=
  match n with
  | O => mret tt
  | S n' => body ;; for_range n' body
  end.

(** ** MotorController *)

(** [hasattr(kit, attr)] and [getattr(kit, attr)] on [self.kit], which is
    [None] without real hardware. *)
Definition kit_getattr (the_kit : option (string → option Handle)) (attr : string)
    : option Handle :=
  the_kit ≫= (λ k, k attr).
Definition kit_hasattr (the_kit : option (string → option Handle)) (attr : string)
    : bool :=
  match kit_getattr the_kit attr with Some _ => true | None => false end.

(** One pass of the loop of [_init_steppers] (lines 70-74); a channel is
    the integer that the f-string prints after ["stepper"]. *)
Definition bind_stepper (the_kit : option (string → option Handle))
    (steppers : gmap string (option Handle)) (item : string * Z)
    : gmap string (option Handle) :=
  let '(name, channel) := item in
  let attr := "stepper" +:+ pretty channel in
  if REAL_HARDWARE && kit_hasattr the_kit attr
  then <[name := kit_getattr the_kit attr]> steppers
  else <[name := None]> steppers.

(** [_init_steppers] (lines 63-74).  [channels] lists the items of the
    [motors] dict in iteration order. *)
Definition _init_steppers (the_kit : option (string → option Handle))
    (channels : list (string * Z)) : gmap string (option Handle) :=
  fold_left (bind_stepper the_kit) channels ∅.

(** The parsed configuration document [cfg]; [None] is an absent key. *)
Record Calibration : Set := {
  cal_steps_per_mm_x : option float;
  cal_steps_per_mm_z : option float
}.
Record Config : Set := {
  cfg_step_style : option string;
  cfg_step_delay : option float;
  cfg_calibration : option Calibration;
  cfg_motors : option (list (string * Z))
}.

(** [__init__] from line 46 on, after the document has been read. *)
Definition __init__ (cfg : Config) : exn + MotorController :=
  match getattr_Stepper (default "SINGLE"%string (cfg_step_style cfg)) with
  | None => inl AttributeError
  | Some style =>
    let delay := default 0.01%float (cfg_step_delay cfg) in
    match cfg_calibration cfg with
    | None => inl KeyError
    | Some cal =>
      let spx := default 80%float (cal_steps_per_mm_x cal) in
      let spz := default 100%float (cal_steps_per_mm_z cal) in
      let the_kit := if REAL_HARDWARE then Some MotorKit else None in
      inr {| step_style := style; step_delay := delay;
             steps_per_mm_x := spx; steps_per_mm_z := spz;
             kit := the_kit;
             steppers := _init_steppers the_kit (default [] (cfg_motors cfg));
             position := {| pos_x := 0; pos_z := 0 |} |}
    end
  end.

(** [_step_motor] (lines 76-85). [dict.get] gives [None] for a name that
    is not a key; a stepper object is truthy. *)
Definition _step_motor (name : string) (direction : Stepper) : M unit := λ σ,
  let stepper_obj := default None (steppers (self σ) !! name) in
  match (if REAL_HARDWARE then stepper_obj else None) with
  | Some h =>
      match onestep h (step_style (self σ)) direction (hw σ) with
      | (None, w) =>
          (Ok tt, emit (EvOnestep name h (step_style (self σ)) direction) (set_hw w σ))
      | (Some e, w) =>
          (Raise e,
           emit (EvOnestepRaised name h (step_style (self σ)) direction e) (set_hw w σ))
      end
  | None => (Ok tt, emit (EvStub name direction) σ)
  end.

(** [time.sleep(secs)]: a length it refuses raises and nothing is logged;
    a pause that is made is logged with its length. *)
Definition time_sleep (secs : float) : M unit := λ σ,
  match sleep_error secs with
  | Some e => (Raise e, σ)
  | None => (Ok tt, emit (EvSleep secs) σ)
  end.

(** [_step_multiple] (lines 87-94): every motor of the list is stepped,
    and then comes the pause, which raises when [time.sleep] refuses
    [step_delay]. *)
Definition _step_multiple (names : list string) (direction : Stepper) : M unit :=
  for_each names (λ nm, _step_motor nm direction) ;;
  mc ← get_self;
  time_sleep (step_delay mc).

(** [move_x] (lines 96-106). *)
Definition move_x (mm : float) : M unit :=
  mc ← get_self;
  steps ← lift (py_round (mm * steps_per_mm_x mc)%float);
  if steps =? 0 then mret tt
  else
    let direction := if 0 <? steps then FORWARD else BACKWARD in
    for_range (Z.to_nat (Z.abs steps))
      (_step_multiple ["x_left"; "x_right"]%string direction);;
    mc ← get_self;
    put_position {| pos_x := (pos_x (position mc) + mm)%float;
                    pos_z := pos_z (position mc) |}.

(** [move_z] (lines 108-118). *)
Definition move_z (mm : float) : M unit :=
  mc ← get_self;
  steps ← lift (py_round (mm * steps_per_mm_z mc)%float);
  if steps =? 0 then mret tt
  else
    let direction := if 0 <? steps then FORWARD else BACKWARD in
    for_range (Z.to_nat (Z.abs steps))
      (_step_multiple ["z_axis"]%string direction) ;;
    mc ← get_self;
    put_position {| pos_x := pos_x (position mc);
                    pos_z := (pos_z (position mc) + mm)%float |}.

(** One pass through the body of the [while] of [move_to] (lines
    136-144): [e2] is taken once, before either branch. *)
Definition loop_body (x_steps z_steps : Z) (sx sz : Stepper)
    (v : Z * Z * Z) : M (Z * Z * Z) :=
  let '(err, x, z) := v in
  let e2 := err * 2 in
  '(err, x) ← (if (x <? x_steps) && (- z_steps <? e2)
               then _step_multiple ["x_left"; "x_right"]%string sx ;;
                    mret (err - z_steps, x + 1)
               else mret (err, x));
  '(err, z) ← (if (z <? z_steps) && (e2 <? x_steps)
               then _step_multiple ["z_axis"]%string sz ;;
                    mret (err + x_steps, z + 1)
               else mret (err, z));
  mret (err, x, z).

(** The [while x < x_steps or z < z_steps] loop (line 135); [fuel]
    bounds the number of passes. *)
Fixpoint interleave (fuel : nat) (x_steps z_steps : Z) (sx sz : Stepper)
    (v : Z * Z * Z) : M unit :=
  let '(_, x, z) := v in
  if (x <? x_steps) || (z <? z_steps) then
    match fuel with
    | O => out_of_fuel
    | S fuel' =>
        v' ← loop_body x_steps z_steps sx sz v;
        interleave fuel' x_steps z_steps sx sz v'
    end
  else mret tt.

(** [move_to] (lines 120-147).  The [fuel] is the model's, for the
    [while] loop; [interleave_spec] below shows that fuel for [|x_steps| +
    |z_steps|] passes is never used up. *)
Definition move_to (fuel : nat) (x_mm z_mm : float) : M unit :=
  mc ← get_self;
  let dx := (x_mm - pos_x (position mc))%float in
  let dz := (z_mm - pos_z (position mc))%float in
  x_steps ← lift (py_round (dx * steps_per_mm_x mc)%float);
  z_steps ← lift (py_round (dz * steps_per_mm_z mc)%float);
  let sx := if 0 <? x_steps then FORWARD else BACKWARD in
  let sz := if 0 <? z_steps then FORWARD else BACKWARD in
  let x_steps := Z.abs x_steps in
  let z_steps := Z.abs z_steps in
  let err := x_steps - z_steps in
  interleave fuel x_steps z_steps sx sz (err, 0, 0) ;;
  mc ← get_self;
  put_position {| pos_x := x_mm; pos_z := pos_z (position mc) |} ;;
  mc ← get_self;
  put_position {| pos_x := pos_x (position mc); pos_z := z_mm |}.

(** ** The control panel's [Home] (manual_gui.py, lines 109-119) *)

Definition _update_position : M unit :=
  mc ← get_self;
  tell (EvLabels (pos_x (position mc)) (pos_z (position mc))).

Definition _home : M unit :=
  put_position {| pos_x := 0; pos_z := 0 |} ;;
  _update_position ;;
  tell (EvShowInfo "Home" "Position reset to (0,0)").

(** ** The specification's names *)

(** The specification speaks of one operation [move_axis(axis, mm)]; the
    program has it as the two methods [move_x] and [move_z]. *)
Inductive Axis : Set := AxisX | AxisZ.

Definition move_axis (axis : Axis) (mm : float) : M unit :=
  match axis with AxisX => move_x mm | AxisZ => move_z mm end.
Definition steps_per_mm (mc : MotorController) (axis : Axis) : float :=
  match axis with AxisX => steps_per_mm_x mc | AxisZ => steps_per_mm_z mc end.
Definition coordinate (p : Position) (axis : Axis) : float :=
  match axis with AxisX => pos_x p | AxisZ => pos_z p end.
(** [p] with the coordinate of [axis] replaced by the float sum with [mm]. *)
Definition bump (axis : Axis) (mm : float) (p : Position) : Position :=
  match axis with
  | AxisX => {| pos_x := (pos_x p + mm)%float; pos_z := pos_z p |}
  | AxisZ => {| pos_x := pos_x p; pos_z := (pos_z p + mm)%float |}
  end.
Definition other (axis : Axis) : Axis :=
  match axis with AxisX => AxisZ | AxisZ => AxisX end.

(** ** Reading the log *)

(** The motor a logged step call was made for. *)
Definition step_name (ev : event) : option string :=
  match ev with
  | EvOnestep n _ _ _ | EvOnestepRaised n _ _ _ _ | EvStub n _ => Some n
  | _ => None
  end.
Definition stepped (name : string) (ev : event) : bool :=
  match step_name ev with Some n => String.eqb n name | None => false end.
Definition is_sleep (ev : event) : bool :=
  match ev with EvSleep _ => true | _ => false end.
Definition is_raised (ev : event) : bool :=
  match ev with EvOnestepRaised _ _ _ _ _ => true | _ => false end.
(** Calls that reach a physical channel. *)
Definition is_physical (ev : event) : bool :=
  match ev with EvOnestep _ _ _ _ | EvOnestepRaised _ _ _ _ _ => true | _ => false end.
(** Calls to the step capability, physical or simulated. *)
Definition is_driver_call (ev : event) : bool :=
  match step_name ev with Some _ => true | None => false end.

Fixpoint count (p : event → bool) (evs : list event) : nat :=
  match evs with
  | [] => O
  | ev :: evs' => (if p ev then 1 else 0) + count p evs'
  end.

(** A step group is one [_step_multiple] call; an X group steps [x_left]
    once (and [x_right] once), a Z group steps [z_axis] once. *)
Definition x_groups (evs : list event) : Z := Z.of_nat (count (stepped "x_left") evs).
Definition z_groups (evs : list event) : Z := Z.of_nat (count (stepped "z_axis") evs).

Definition groups (axis : Axis) (evs : list event) : Z :=
  match axis with AxisX => x_groups evs | AxisZ => z_groups evs end.

(** The log of [n] groups of a motor on the simulated channel. *)
Definition stub_groups (n : nat) (name : string) (d : Stepper) (delay : float)
    : list event :=
  mjoin (replicate n [EvSleep delay; EvStub name d]).

(** The driver never raises: there is no real hardware, or [onestep]
    always returns. *)
Definition quiet : Prop :=
  REAL_HARDWARE = false ∨ ∀ h style d w, (onestep h style d w).1 = None.

(** The motor [name] of controller [mc] is on the simulated channel. *)
Definition simulated (mc : MotorController) (name : string) : Prop :=
  REAL_HARDWARE = false ∨ default None (steppers mc !! name) = None.

(** ** How far a call has got *)

(** From [σ0] the program has issued [kx] whole X groups and [kz] whole Z
    groups and nothing has raised; the controller object is as it was. *)
Definition advanced (σ0 σ : state) (kx kz : Z) : Prop :=
  self σ = self σ0 ∧
  ∃ evs, out σ = evs ++ out σ0 ∧
    x_groups evs = kx ∧ Z.of_nat (count (stepped "x_right") evs) = kx ∧
    z_groups evs = kz ∧ Z.of_nat (count is_sleep evs) = kx + kz ∧
    count is_raised evs = O.

(** From [σ0] the program has issued [k] whole groups, and then a call
    of [onestep] raised [e]: that call is the last thing it did. *)
Definition aborted (σ0 σ : state) (e : exn) (k : Z) : Prop :=
  self σ = self σ0 ∧ REAL_HARDWARE = true ∧
  (∃ h style d w, (onestep h style d w).1 = Some e) ∧
  ∃ name h style d evs,
    out σ = EvOnestepRaised name h style d e :: evs ++ out σ0 ∧
    Z.of_nat (count is_sleep evs) = k ∧ count is_raised evs = O.

(** A method that leaves every field of the controller object but
    [position] as it found it, however it ends. *)
Definition keeps_wiring {A} (m : M A) : Prop :=
  ∀ σ, ∃ p, self (m σ).2 = set_position p (self σ).

(** What the [while] loop of [move_to] keeps true of [err], [x], [z]. *)
Definition loop_inv (x_steps z_steps : Z) (v : Z * Z * Z) : Prop :=
  let '(err, x, z) := v in
  0 ≤ x ≤ x_steps ∧ 0 ≤ z ≤ z_steps ∧
  err = x_steps - z_steps - x * z_steps + z * x_steps.

(** A loop body that, on a controller whose [step_delay] the pause
    accepts, issues [dx] X groups and [dz] Z groups, or raises in the
    middle of one. *)
Definition issues (body : M unit) (dx dz : Z) : Prop :=
  ∀ σ0 σ kx kz, sleep_error (step_delay (self σ0)) = None → advanced σ0 σ kx kz →
    match body σ with
    | (Ok _, σ1) => advanced σ0 σ1 (kx + dx) (kz + dz)
    | (Raise e, σ1) => aborted σ0 σ1 e (kx + kz)
    | (OutOfFuel, _) => False
    end.

End Controller.

(** ** Two rigs to run the controller on *)

(** A configuration document that gives the motor channels and an empty
    calibration block, so that every default applies (80 and 100 steps per
    millimetre, a delay of 0.01 s, style SINGLE). *)
Definition default_cfg : Config :=
  {| cfg_step_style := None;
     cfg_step_delay := None;
     cfg_calibration :=
       Some {| cal_steps_per_mm_x := None; cal_steps_per_mm_z := None |};
     cfg_motors := Some [("x_left", 1); ("x_right", 2); ("z_axis", 3)]%string |}.

(** A MotorKit with its two stepper ports; a stepper object is named by
    its port. *)
Definition two_port_kit (attr : string) : option N :=
  if String.eqb attr "stepper1" then Some 1%N
  else if String.eqb attr "stepper2" then Some 2%N
  else None.

(** The development machine: the hardware libraries are absent, so
    nothing is ever asked of the rig. *)
Definition no_rig (h : N) (style direction : Stepper) (w : nat) : option exn * nat :=
  (None, w).

(** A rig that counts the calls it serves and whose bus fails on the
    [k]-th one (counting from 0). *)
Definition flaky_rig (k : nat) (h : N) (style direction : Stepper) (w : nat)
    : option exn * nat :=
  (if Nat.eqb w k then Some OSError else None, S w).

(** The controller [__init__] builds from [default_cfg] in stub mode and
    on the real kit, with [position] moved to [p]. *)
Definition stub_controller (p : Position) : MotorController :=
  {| step_style := SINGLE; step_delay := 0.01; steps_per_mm_x := 80;
     steps_per_mm_z := 100; kit := None;
     steppers := _init_steppers (Handle := N) false None
                   [("x_left", 1); ("x_right", 2); ("z_axis", 3)]%string;
     position := p |}.
Definition real_controller (p : Position) : MotorController :=
  {| step_style := SINGLE; step_delay := 0.01; steps_per_mm_x := 80;
     steps_per_mm_z := 100; kit := Some two_port_kit;
     steppers := _init_steppers true (Some two_port_kit)
                   [("x_left", 1); ("x_right", 2); ("z_axis", 3)]%string;
     position := p |}.

Definition origin : Position := {| pos_x := 0; pos_z := 0 |}.

Definition stub_state (p : Position) : state :=
  {| self := stub_controller p; hw := O; out := [] |}.
Definition real_state (p : Position) : state :=
  {| self := real_controller p; hw := O; out := [] |}.

(** The development machine with ["step_delay": -0.01] in the
    configuration document. *)
Definition negative_delay_state : state :=
  {| self := {| step_style := SINGLE; step_delay := -0.01; steps_per_mm_x := 80;
                steps_per_mm_z := 100; kit := None;
                steppers := steppers (stub_controller origin);
                position := origin |};
     hw := O; out := [] |}.

(** ** The order of the step groups, the panels *)

(** A float that is a NaN. *)
Definition is_nan (f : float) : Prop := Prim2SF f = S754_nan.

(** The counters [err], [x], [z] after one pass of the [while] loop of
    [move_to] that does not raise (lines 136-144 without the stepping). *)
Definition next_counters (x_steps z_steps : Z) (v : Z * Z * Z) : Z * Z * Z :=
  let '(err, x, z) := v in
  let e2 := err * 2 in
  let '(err, x) := if (x <? x_steps) && (- z_steps <? e2)
                   then (err - z_steps, x + 1) else (err, x) in
  let '(err, z) := if (z <? z_steps) && (e2 <? x_steps)
                   then (err + x_steps, z + 1) else (err, z) in
  (err, x, z).

(** The groups that pass issues, in the order it issues them. *)
Definition pass_groups (x_steps z_steps : Z) (v : Z * Z * Z) : list Axis :=
  let '(err, x, z) := v in
  let e2 := err * 2 in
  (if (x <? x_steps) && (- z_steps <? e2) then [AxisX] else []) ++
  (if (z <? z_steps) && (e2 <? x_steps) then [AxisZ] else []).

(** The loop's condition (line 135). *)
Definition continuing (x_steps z_steps : Z) (v : Z * Z * Z) : bool :=
  let '(_, x, z) := v in (x <? x_steps) || (z <? z_steps).

(** The groups the loop issues in its first [passes] passes, in order, and
    the counters it has then. *)
Fixpoint schedule (passes : nat) (x_steps z_steps : Z) (v : Z * Z * Z) : list Axis :=
  match passes with
  | O => []
  | S n =>
      if continuing x_steps z_steps v
      then pass_groups x_steps z_steps v
           ++ schedule n x_steps z_steps (next_counters x_steps z_steps v)
      else []
  end.
Fixpoint counters_after (passes : nat) (x_steps z_steps : Z) (v : Z * Z * Z)
    : Z * Z * Z :=
  match passes with
  | O => v
  | S n =>
      if continuing x_steps z_steps v
      then counters_after n x_steps z_steps (next_counters x_steps z_steps v)
      else v
  end.

(** The point [(x, z)] is within half a step of the straight line from
    [(0, 0)] to [(x_steps, z_steps)], measured along the longer axis. *)
Definition on_line (x_steps z_steps : Z) (v : Z * Z * Z) : Prop :=
  let '(_, x, z) := v in
  2 * Z.abs (z * x_steps - x * z_steps) ≤ Z.max x_steps z_steps.

(** The number of groups of [axis] in a list of groups. *)
Fixpoint tally (axis : Axis) (gs : list Axis) : Z :=
  match gs with
  | [] => 0
  | g :: gs' =>
      (match axis, g with AxisX, AxisX | AxisZ, AxisZ => 1 | _, _ => 0 end)
      + tally axis gs'
  end.

(** The motors of an axis, in the order a group steps them. *)
Definition motors (axis : Axis) : list string :=
  match axis with
  | AxisX => ["x_left"; "x_right"]%string
  | AxisZ => ["z_axis"]%string
  end.

(** *** The widgets of the control panel (manual_gui.py) *)

(** A Tk widget: the name the program gives it (or its text), its class,
    its state and, in the order of their creation, the widgets whose
    master it is, which [winfo_children] lists. *)
Inductive widget_class : Set := TkFrame | TkLabelFrame | TkLabel | TkSpinbox | TkButton.
Inductive widget_state : Set := NORMAL | DISABLED.
#[local] Set Warnings "-register-all".
Inductive widget : Set :=
  Widget (name : string) (cls : widget_class) (st : widget_state) (children : list widget).

Definition widget_children (w : widget) : list widget :=
  match w with Widget _ _ _ children => children end.
Definition widget_st (w : widget) : widget_state :=
  match w with Widget _ _ st _ => st end.
Definition widget_cls (w : widget) : widget_class :=
  match w with Widget _ cls _ _ => cls end.

(** [_create_widgets] (lines 26-93): the children of the window once it
    has run.  Every widget is created in the NORMAL state. *)
Definition _create_widgets : list widget :=
  [ Widget "step_frame" TkFrame NORMAL
      [ Widget "Step Size (mm):" TkLabel NORMAL [];
        Widget "step_size" TkSpinbox NORMAL [] ];
    Widget "x_frame" TkLabelFrame NORMAL
      [ Widget "btn_left" TkButton NORMAL [];
        Widget "lbl_x" TkLabel NORMAL [];
        Widget "btn_right" TkButton NORMAL [] ];
    Widget "z_frame" TkLabelFrame NORMAL
      [ Widget "btn_up" TkButton NORMAL [];
        Widget "lbl_z" TkLabel NORMAL [];
        Widget "btn_down" TkButton NORMAL [] ];
    Widget "ctrl_frame" TkFrame NORMAL
      [ Widget "btn_home" TkButton NORMAL [];
        Widget "btn_estop" TkButton NORMAL [];
        Widget "btn_load" TkButton NORMAL [];
        Widget "lbl_csv" TkLabel NORMAL [] ] ]%string.

(** [_emergency_stop] (lines 121-126) on the children of the window: the
    children after it, and the warning box it shows. *)
Definition _emergency_stop (children : list widget) : list widget * (string * string) :=
  (map (λ child,
      match child with
      | Widget name cls st below =>
          match cls with
          | TkButton | TkSpinbox => Widget name cls DISABLED below
          | _ => child
          end
      end) children,
   ("EMERGENCY STOP", "All controls disabled!")%string).

Section Panels.

Context {Handle HW : Type}.
Variable REAL_HARDWARE : bool.
Variable onestep : Handle → Stepper → Stepper → HW → option exn * HW.

(** What [_step_motor name d] logs when it returns. *)
Definition step_event (mc : @MotorController Handle) (name : string) (d : Stepper)
    : @event Handle :=
  match (if REAL_HARDWARE then default None (steppers mc !! name) else None) with
  | Some h => EvOnestep name h (step_style mc) d
  | None => EvStub name d
  end.

(** What [_step_multiple names d] logs when it returns, newest first. *)
Definition group_log (mc : @MotorController Handle) (names : list string) (d : Stepper)
    : list (@event Handle) :=
  EvSleep (step_delay mc) :: rev (map (λ nm, step_event mc nm d) names).

(** The log of the groups [gs], issued in that order with the X groups in
    direction [sx] and the Z groups in direction [sz], newest first. *)
Fixpoint log_of (mc : @MotorController Handle) (sx sz : Stepper) (gs : list Axis)
    : list (@event Handle) :=
  match gs with
  | [] => []
  | g :: gs' =>
      log_of mc sx sz gs'
      ++ group_log mc (motors g) (match g with AxisX => sx | AxisZ => sz end)
  end.

(** A method whose end state is related by [R] to the state it was called
    in, however it ends. *)
Definition within (R : @state Handle HW → @state Handle HW → Prop) {A}
    (m : @M Handle HW A) : Prop :=
  ∀ σ, R σ (m σ).2.

(** From [σ] to [σ'] the rig is as it was and no call to a physical
    channel has been logged. *)
Definition untouched (σ σ' : @state Handle HW) : Prop :=
  hw σ' = hw σ ∧ ∃ evs, out σ' = evs ++ out σ ∧ count is_physical evs = O.

(** *** ManualControlApp (manual_gui.py) *)

(** The position the two labels of the panel show: what the newest
    [_update_position] wrote. *)
Fixpoint displayed (evs : list (@event Handle)) : option (float * float) :=
  match evs with
  | [] => None
  | EvLabels x z :: _ => Some (x, z)
  | _ :: evs' => displayed evs'
  end.

(** The error box of a handler: [messagebox.showerror(title, f"{text}{e}")]. *)
Record error_box : Set := { box_title : string; box_text : string; box_exn : exn }.

(** [try: body except Exception as e: messagebox.showerror(title,
    f"{text}{e}")]: the handler returns the box it showed, if any.  A loop
    cut short is not an exception. *)
Definition try_showerror (body : @M Handle HW unit) (title text : string)
    : @M Handle HW (option error_box) := λ σ,
  match body σ with
  | (Ok _, σ') => (Ok None, σ')
  | (Raise e, σ') =>
      (Ok (Some {| box_title := title; box_text := text; box_exn := e |}), σ')
  | (OutOfFuel, σ') => (OutOfFuel, σ')
  end.

(** [_move_x] (lines 95-100) and [_move_z] (lines 102-107). *)
Definition _move_x (distance : float) : @M Handle HW (option error_box) :=
  try_showerror (move_x REAL_HARDWARE onestep distance ;; _update_position)
    "Error" "X axis move failed: ".
Definition _move_z (distance : float) : @M Handle HW (option error_box) :=
  try_showerror (move_z REAL_HARDWARE onestep distance ;; _update_position)
    "Error" "Z axis move failed: ".

(** The labels show the controller's position. *)
Definition in_sync (σ : @state Handle HW) : Prop :=
  displayed (out σ) = Some (pos_x (position (self σ)), pos_z (position (self σ))).

(** *** MotorTestGUI (motor_test_gui.py) *)

(** What [_step] leaves on the window: the status line, or the error box
    for a step count that is no integer. *)
Inductive test_window : Set :=
  | StatusLine (text : string)
  | InvalidInput (title message : string).

(** [_step] (lines 58-67).  [motor] is the selected motor and [count] what
    [int(self.step_entry.get())] gives, [None] when it raises
    [ValueError]. *)
Definition _step (direction : Stepper) (motor : string) (count : option Z)
    : @M Handle HW test_window :=
  match count with
  | None =>
      mret (InvalidInput "Invalid Input" "Please enter an integer step count.")
  | Some count =>
      for_range (Z.to_nat (Z.abs count))
        (_step_multiple REAL_HARDWARE onestep [motor] direction) ;;
      mret (StatusLine ("Moved " +:+ motor +:+ " " +:+ pretty count +:+ " steps "
                        +:+ (match direction with FORWARD => "+" | _ => "-" end)))
  end.

(** [step_forward] and [step_backward] (lines 52-56). *)
Definition step_forward := _step FORWARD.
Definition step_backward := _step BACKWARD.

End Panels.

(** ** Facts about the Python values *)

Lemma init_default_stub : __init__ false two_port_kit default_cfg = inr (stub_controller origin).
Proof. reflexivity. Qed.

Lemma init_default_real : __init__ true two_port_kit default_cfg = inr (real_controller origin).
Proof. reflexivity. Qed.

Lemma real_z_axis_unresolved p : steppers (real_controller p) !! "z_axis"%string = Some None.
Proof. vm_compute. reflexivity. Qed.

Lemma real_x_left_resolved p : steppers (real_controller p) !! "x_left"%string = Some (Some 1%N).
Proof. vm_compute. reflexivity. Qed.

Lemma py_round_SF f : py_round f = round_SF (Prim2SF f).
Proof. reflexivity. Qed.

Lemma round_half_even_nonneg m e : 0 ≤ round_half_even m e.
Proof.
  unfold round_half_even. destruct e as [|p|p].
  - lia.
  - apply Z.mul_nonneg_nonneg; [lia|]. apply Z.lt_le_incl, Z.pow_pos_nonneg; lia.
  - set (d := 2 ^ Z.pos p).
    assert (Hd : 0 < d) by (apply Z.pow_pos_nonneg; lia).
    assert (Hq : 0 ≤ Z.pos m / d) by (apply Z.div_pos; lia).
    destruct (2 * (Z.pos m mod d) ?= d); [destruct (Z.even _)| |]; lia.
Qed.




(** A zero distance gives zero steps, or no step count at all when the
    calibration factor is not a number the product is defined for. *)
Lemma py_round_mul_zero (d spm : float) :
  is_zero d →
  py_round (d * spm)%float = (if is_finite spm then inr 0 else inl ValueError).
Proof.
  intros [s Hd]. unfold is_finite. rewrite py_round_SF, mul_spec, Hd.
  destruct (Prim2SF spm) as [sb|sb| |sb mb eb]; reflexivity.
Qed.



(** ** Facts about the methods *)

Section Facts.

Context {Handle HW : Type}.
Variable REAL_HARDWARE : bool.
Variable MotorKit : string → option Handle.
Variable onestep : Handle → Stepper → Stepper → HW → option exn * HW.

Local Abbreviation state := (@state Handle HW).
Local Abbreviation M := (@M Handle HW).
Local Abbreviation _step_motor := (_step_motor REAL_HARDWARE onestep).
Local Abbreviation _step_multiple := (_step_multiple REAL_HARDWARE onestep).
Local Abbreviation move_x := (move_x REAL_HARDWARE onestep).
Local Abbreviation move_z := (move_z REAL_HARDWARE onestep).
Local Abbreviation move_to := (move_to REAL_HARDWARE onestep).
Local Abbreviation loop_body := (loop_body REAL_HARDWARE onestep).
Local Abbreviation interleave := (interleave REAL_HARDWARE onestep).
Local Abbreviation quiet := (quiet REAL_HARDWARE onestep).
Local Abbreviation simulated := (simulated REAL_HARDWARE).
Local Abbreviation aborted := (aborted REAL_HARDWARE onestep).
Local Abbreviation issues := (issues REAL_HARDWARE onestep).
Local Abbreviation move_axis := (move_axis REAL_HARDWARE onestep).
Local Abbreviation __init__ := (__init__ REAL_HARDWARE MotorKit).
Local Abbreviation _init_steppers := (_init_steppers (Handle := Handle) REAL_HARDWARE).

Lemma run_bind {A B} (m : M A) (f : A → M B) (σ : state) :
  (m ≫= f) σ = match m σ with
               | (Ok a, σ') => f a σ'
               | (Raise e, σ') => (Raise e, σ')
               | (OutOfFuel, σ') => (OutOfFuel, σ')
               end.
Proof. reflexivity. Qed.

Lemma count_app p (l1 l2 : list (@event Handle)) :
  count p (l1 ++ l2) = (count p l1 + count p l2)%nat.
Proof. induction l1 as [|ev l1 IH]; simpl; [reflexivity | rewrite IH; lia]. Qed.

Lemma advanced_refl (σ : state) : advanced σ σ 0 0.
Proof. split; [reflexivity|]. exists []. repeat split. Qed.

Lemma advanced_eq (σ0 σ : state) kx kz kx' kz' :
  advanced σ0 σ kx kz → kx = kx' → kz = kz' → advanced σ0 σ kx' kz'.
Proof. intros H -> ->. exact H. Qed.

Lemma quiet_not_aborted (σ0 σ : state) e k : quiet → aborted σ0 σ e k → False.
Proof.
  intros [Hq|Hq] (_ & Hreal & (h & st & d & w & Hraise) & _).
  - congruence.
  - rewrite Hq in Hraise. discriminate.
Qed.

(** One call of [_step_motor] logs one step of that motor, or raises as
    the stepper object raised. *)
Lemma step_motor_spec name d (σ : state) :
  match _step_motor name d σ with
  | (Ok _, σ1) =>
      self σ1 = self σ ∧
      ∃ ev, out σ1 = ev :: out σ ∧ step_name ev = Some name ∧
            is_raised ev = false ∧ is_sleep ev = false
  | (Raise e, σ1) =>
      self σ1 = self σ ∧ REAL_HARDWARE = true ∧
      (∃ h style d w, (onestep h style d w).1 = Some e) ∧
      ∃ h style, out σ1 = EvOnestepRaised name h style d e :: out σ
  | (OutOfFuel, _) => False
  end.
Proof.
  unfold _step_motor.
  destruct REAL_HARDWARE eqn:Hreal; [destruct (default None _) as [h|]|].
  - destruct (onestep h _ d (hw σ)) as [[e|] w] eqn:Hstep; simpl.
    + split; [reflexivity|]. split; [reflexivity|]. split; [|eauto].
      exists h, (step_style (self σ)), d, (hw σ). rewrite Hstep. reflexivity.
    + split; [reflexivity|]. eexists. repeat split.
  - simpl. split; [reflexivity|]. eexists. repeat split.
  - simpl. split; [reflexivity|]. eexists. repeat split.
Qed.

Lemma stepped_other name name' (ev : @event Handle) :
  step_name ev = Some name → String.eqb name name' = false → stepped name' ev = false.
Proof. unfold stepped. intros -> ->. reflexivity. Qed.

Lemma stepped_same name (ev : @event Handle) :
  step_name ev = Some name → stepped name ev = true.
Proof. unfold stepped. intros ->. apply String.eqb_refl. Qed.

Lemma run_get (σ : state) : get_self σ = (Ok (self σ), σ).
Proof. reflexivity. Qed.

Lemma run_ret {A} (a : A) (σ : state) : (mret a : M A) σ = (Ok a, σ).
Proof. reflexivity. Qed.

Lemma run_lift {A} (r : exn + A) (σ : state) :
  lift r σ = match r with inl e => (Raise e, σ) | inr a => (Ok a, σ) end.
Proof. destruct r; reflexivity. Qed.

Ltac run :=
  repeat first [rewrite run_bind | rewrite run_get | rewrite run_ret | progress simpl].

(** A pause of a length that [time.sleep] accepts is made and logged. *)
Lemma run_sleep secs (σ : state) :
  sleep_error secs = None → time_sleep secs σ = (Ok tt, emit (EvSleep secs) σ).
Proof. unfold time_sleep. intros ->. reflexivity. Qed.

(** [_step_multiple] on one name and on two names, unrolled. *)
Lemma step_multiple_one a d (σ : state) :
  _step_multiple [a] d σ
  = match _step_motor a d σ with
    | (Ok _, σ1) => time_sleep (step_delay (self σ1)) σ1
    | (Raise e, σ1) => (Raise e, σ1)
    | (OutOfFuel, σ1) => (OutOfFuel, σ1)
    end.
Proof.
  unfold _step_multiple, for_each. rewrite !run_bind.
  destruct (_step_motor a d σ) as [[[]|e|] σ1]; reflexivity.
Qed.

Lemma step_multiple_two a b d (σ : state) :
  _step_multiple [a; b] d σ
  = match _step_motor a d σ with
    | (Ok _, σ1) =>
        match _step_motor b d σ1 with
        | (Ok _, σ2) => time_sleep (step_delay (self σ2)) σ2
        | (Raise e, σ2) => (Raise e, σ2)
        | (OutOfFuel, σ2) => (OutOfFuel, σ2)
        end
    | (Raise e, σ1) => (Raise e, σ1)
    | (OutOfFuel, σ1) => (OutOfFuel, σ1)
    end.
Proof.
  unfold _step_multiple, for_each. rewrite !run_bind.
  destruct (_step_motor a d σ) as [[[]|e|] σ1]; try reflexivity. rewrite !run_bind.
  destruct (_step_motor b d σ1) as [[[]|e|] σ2]; reflexivity.
Qed.

(** An X group: [x_left], then [x_right], then the pause. *)
Lemma x_group_issues d : issues (_step_multiple ["x_left"; "x_right"]%string d) 1 0.
Proof.
  intros σ0 σ kx kz Hdelay (Hself & evs & Hout & Hxl & Hxr & Hz & Hsl & Hr).
  rewrite step_multiple_two.
  pose proof (step_motor_spec "x_left" d σ) as H1.
  destruct (_step_motor "x_left" d σ) as [[[]|e|] σ1]; [|shelve|contradiction].
  destruct H1 as (Hself1 & ev1 & Hout1 & Hn1 & Hr1 & Hs1).
  pose proof (step_motor_spec "x_right" d σ1) as H2.
  destruct (_step_motor "x_right" d σ1) as [[[]|e|] σ2]; [|shelve|contradiction].
  destruct H2 as (Hself2 & ev2 & Hout2 & Hn2 & Hr2 & Hs2).
  rewrite run_sleep by (rewrite Hself2, Hself1, Hself; exact Hdelay).
  unfold advanced. split; [simpl; congruence|].
  exists (EvSleep (step_delay (self σ2)) :: ev2 :: ev1 :: evs).
  simpl. rewrite Hout2, Hout1, Hout. unfold x_groups, z_groups in *. simpl.
  rewrite (stepped_same _ _ Hn1), (stepped_same _ _ Hn2).
  rewrite (stepped_other _ "x_right" _ Hn1), (stepped_other _ "z_axis" _ Hn1),
    (stepped_other _ "x_left" _ Hn2), (stepped_other _ "z_axis" _ Hn2) by reflexivity.
  rewrite Hr1, Hr2, Hs1, Hs2. repeat split; lia.
  Unshelve.
  - destruct H1 as (Hself1 & Hreal & Hraise & h & st & Hout1).
    unfold aborted. split; [congruence|]. split; [assumption|]. split; [assumption|].
    exists "x_left"%string, h, st, d, evs. rewrite Hout1, Hout. repeat split; lia.
  - destruct H2 as (Hself2 & Hreal & Hraise & h & st & Hout2).
    unfold aborted. split; [congruence|]. split; [assumption|]. split; [assumption|].
    exists "x_right"%string, h, st, d, (ev1 :: evs). rewrite Hout2, Hout1, Hout.
    simpl. rewrite Hr1, Hs1. repeat split; lia.
Qed.

(** A Z group: [z_axis], then the pause. *)
Lemma z_group_issues d : issues (_step_multiple ["z_axis"]%string d) 0 1.
Proof.
  intros σ0 σ kx kz Hdelay (Hself & evs & Hout & Hxl & Hxr & Hz & Hsl & Hr).
  rewrite step_multiple_one.
  pose proof (step_motor_spec "z_axis" d σ) as H1.
  destruct (_step_motor "z_axis" d σ) as [[[]|e|] σ1]; [| |contradiction].
  - destruct H1 as (Hself1 & ev1 & Hout1 & Hn1 & Hr1 & Hs1).
    rewrite run_sleep by (rewrite Hself1, Hself; exact Hdelay).
    unfold advanced. split; [simpl; congruence|].
    exists (EvSleep (step_delay (self σ1)) :: ev1 :: evs).
    simpl. rewrite Hout1, Hout. unfold x_groups, z_groups in *. simpl.
    rewrite (stepped_same _ _ Hn1).
    rewrite (stepped_other _ "x_right" _ Hn1), (stepped_other _ "x_left" _ Hn1)
      by reflexivity.
    rewrite Hr1, Hs1. repeat split; lia.
  - destruct H1 as (Hself1 & Hreal & Hraise & h & st & Hout1).
    unfold aborted. split; [congruence|]. split; [assumption|]. split; [assumption|].
    exists "z_axis"%string, h, st, d, evs. rewrite Hout1, Hout. repeat split; lia.
Qed.

(** [for _ in range(n)] over a body that issues one group a pass. *)
Lemma for_range_issues (body : M unit) dx dz n :
  issues body dx dz → dx + dz = 1 →
  ∀ (σ0 σ : state) kx kz,
    sleep_error (step_delay (self σ0)) = None → advanced σ0 σ kx kz →
    match for_range n body σ with
    | (Ok _, σ1) => advanced σ0 σ1 (kx + Z.of_nat n * dx) (kz + Z.of_nat n * dz)
    | (Raise e, σ1) => ∃ k, aborted σ0 σ1 e k ∧ kx + kz ≤ k < kx + kz + Z.of_nat n
    | (OutOfFuel, _) => False
    end.
Proof.
  intros Hbody Hd. induction n as [|n IH]; intros σ0 σ kx kz Hdelay Hadv.
  - simpl. eapply advanced_eq; [eassumption|lia|lia].
  - simpl for_range. rewrite run_bind.
    specialize (Hbody σ0 σ kx kz Hdelay Hadv).
    destruct (body σ) as [[[]|e|] σ1]; [| |contradiction].
    + specialize (IH σ0 σ1 _ _ Hdelay Hbody).
      destruct (for_range n body σ1) as [[[]|e|] σ2]; [| |contradiction].
      * eapply advanced_eq; [eassumption|lia|lia].
      * destruct IH as (k & Hab & Hk). exists k. split; [assumption|lia].
    + exists (kx + kz). split; [assumption|lia].
Qed.

(** *** The interleaving loop *)

(** While a counter is short of its target, one of the two guards holds. *)
Lemma guards_cover xs zs err x z :
  loop_inv xs zs (err, x, z) → x < xs ∨ z < zs →
  (x <? xs) && (- zs <? err * 2) = true ∨ (z <? zs) && (err * 2 <? xs) = true.
Proof.
  intros (Hx & Hz & Herr) Hlt.
  destruct (Z.ltb_spec x xs) as [Hxlt|Hxge], (Z.ltb_spec z zs) as [Hzlt|Hzge]; simpl.
  - destruct (Z.ltb_spec (- zs) (err * 2)); [left; reflexivity|].
    right. apply Z.ltb_lt. lia.
  - left. apply Z.ltb_lt. nia.
  - right. apply Z.ltb_lt. nia.
  - lia.
Qed.

Lemma loop_body_spec xs zs sx sz err x z (σ0 σ : state) kx kz :
  sleep_error (step_delay (self σ0)) = None →
  loop_inv xs zs (err, x, z) → x < xs ∨ z < zs → advanced σ0 σ kx kz →
  match loop_body xs zs sx sz (err, x, z) σ with
  | (Ok v', σ1) =>
      loop_inv xs zs v' ∧ x + z < v'.1.2 + v'.2 ∧
      advanced σ0 σ1 (kx + (v'.1.2 - x)) (kz + (v'.2 - z))
  | (Raise e, σ1) =>
      ∃ k, aborted σ0 σ1 e k ∧ kx + kz ≤ k < kx + kz + (xs - x) + (zs - z)
  | (OutOfFuel, _) => False
  end.
Proof.
  intros Hdelay Hinv Hlt Hadv.
  pose proof (guards_cover _ _ _ _ _ Hinv Hlt) as Hg.
  destruct Hinv as (Hx & Hz & Herr).
  unfold loop_body. rewrite run_bind.
  destruct ((x <? xs) && (- zs <? err * 2)) eqn:Hgx.
  - apply andb_prop in Hgx as [Hxlt%Z.ltb_lt _].
    rewrite run_bind.
    pose proof (x_group_issues sx σ0 σ kx kz Hdelay Hadv) as HX.
    destruct (_step_multiple ["x_left"; "x_right"]%string sx σ) as [[[]|e|] σ1];
      [| |contradiction].
    + run. destruct ((z <? zs) && (err * 2 <? xs)) eqn:Hgz.
      * apply andb_prop in Hgz as [Hzlt%Z.ltb_lt _].
        rewrite run_bind.
        pose proof (z_group_issues sz σ0 σ1 _ _ Hdelay HX) as HZ.
        destruct (_step_multiple ["z_axis"]%string sz σ1) as [[[]|e|] σ2];
          [| |contradiction].
        -- run. unfold loop_inv.
           split; [repeat split; lia|].
           split; [lia | eapply advanced_eq; [eassumption|lia|lia]].
        -- eexists. split; [eassumption|lia].
      * run. unfold loop_inv.
        split; [repeat split; lia|].
        split; [lia | eapply advanced_eq; [eassumption|lia|lia]].
    + eexists. split; [eassumption|lia].
  - destruct Hg as [Hg|Hg]; [discriminate|]. rewrite Hg.
    apply andb_prop in Hg as [Hzlt%Z.ltb_lt _].
    run.
    pose proof (z_group_issues sz σ0 σ _ _ Hdelay Hadv) as HZ.
    destruct (_step_multiple ["z_axis"]%string sz σ) as [[[]|e|] σ2];
      [| |contradiction].
    + run. unfold loop_inv.
      split; [repeat split; lia|].
      split; [lia | eapply advanced_eq; [eassumption|lia|lia]].
    + eexists. split; [eassumption|lia].
Qed.

Lemma interleave_unroll fuel xs zs sx sz err x z (σ : state) :
  interleave (S fuel) xs zs sx sz (err, x, z) σ
  = if (x <? xs) || (z <? zs) then
      match loop_body xs zs sx sz (err, x, z) σ with
      | (Ok v', σ1) => interleave fuel xs zs sx sz v' σ1
      | (Raise e, σ1) => (Raise e, σ1)
      | (OutOfFuel, σ1) => (OutOfFuel, σ1)
      end
    else (Ok tt, σ).
Proof. simpl interleave. destruct (_ || _); reflexivity. Qed.

(** With as much fuel as there are groups left to issue, the loop ends:
    it has issued every group, or a step raised. *)
Lemma interleave_spec xs zs sx sz fuel :
  ∀ v (σ0 σ : state),
    sleep_error (step_delay (self σ0)) = None →
    loop_inv xs zs v → advanced σ0 σ v.1.2 v.2 →
    (xs - v.1.2) + (zs - v.2) ≤ Z.of_nat fuel →
    match interleave fuel xs zs sx sz v σ with
    | (Ok _, σ1) => advanced σ0 σ1 xs zs
    | (Raise e, σ1) => ∃ k, aborted σ0 σ1 e k ∧ v.1.2 + v.2 ≤ k < xs + zs
    | (OutOfFuel, _) => False
    end.
Proof.
  induction fuel as [|fuel IH]; intros [[err x] z] σ0 σ Hdelay Hinv Hadv Hfuel;
    simpl in Hadv, Hfuel; pose proof Hinv as (Hx & Hz & Herr).
  - simpl. destruct (Z.ltb_spec x xs), (Z.ltb_spec z zs); simpl; try lia.
    eapply advanced_eq; [eassumption|lia|lia].
  - rewrite interleave_unroll. destruct ((x <? xs) || (z <? zs)) eqn:Hc.
    + assert (Hlt : x < xs ∨ z < zs)
        by (apply orb_prop in Hc as [H%Z.ltb_lt|H%Z.ltb_lt]; auto).
      pose proof (loop_body_spec xs zs sx sz err x z σ0 σ x z Hdelay Hinv Hlt Hadv) as HB.
      destruct (loop_body xs zs sx sz (err, x, z) σ) as [[v'|e|] σ1];
        [| |contradiction].
      * destruct HB as (Hinv' & Hprog & Hadv').
        apply (advanced_eq _ _ _ _ v'.1.2 v'.2) in Hadv'; [|lia|lia].
        assert (Hfuel' : xs - v'.1.2 + (zs - v'.2) ≤ Z.of_nat fuel) by lia.
        specialize (IH v' σ0 σ1 Hdelay Hinv' Hadv' Hfuel').
        destruct (interleave fuel xs zs sx sz v' σ1) as [[[]|e|] σ2];
          [assumption| |contradiction].
        destruct IH as (k & Hab & Hk). exists k. split; [assumption|simpl; lia].
      * destruct HB as (k & Hab & Hk). exists k. split; [assumption|simpl; lia].
    + apply orb_false_elim in Hc as [Hxge%Z.ltb_ge Hzge%Z.ltb_ge]. simpl.
      eapply advanced_eq; [eassumption|lia|lia].
Qed.

(** *** The three moves *)

(** A single-axis move that has steps to make: it returns with the
    coordinate bumped after [|steps|] groups of its axis, or a step
    raised before all groups were out. *)
Lemma move_axis_spec axis mm (σ : state) steps :
  sleep_error (step_delay (self σ)) = None →
  py_round (mm * steps_per_mm (self σ) axis)%float = inr steps → steps ≠ 0 →
  match move_axis axis mm σ with
  | (Ok _, σ') =>
      ∃ σ1, advanced σ σ1 (match axis with AxisX => Z.abs steps | AxisZ => 0 end)
                          (match axis with AxisX => 0 | AxisZ => Z.abs steps end) ∧
            σ' = set_self (set_position (bump axis mm (position (self σ))) (self σ)) σ1
  | (Raise e, σ') => ∃ k, aborted σ σ' e k ∧ 0 ≤ k < Z.abs steps
  | (OutOfFuel, _) => False
  end.
Proof.
  intros Hdelay Hround Hnz. apply Z.eqb_neq in Hnz.
  destruct axis; simpl in Hround; unfold move_axis, move_x, move_z;
    rewrite run_bind, run_get, run_bind, run_lift, Hround, Hnz, run_bind.
  - pose proof (for_range_issues _ 1 0 (Z.to_nat (Z.abs steps))
                  (x_group_issues (if 0 <? steps then FORWARD else BACKWARD))
                  eq_refl σ σ 0 0 Hdelay (advanced_refl σ)) as H.
    destruct (for_range _ _ σ) as [[[]|e|] σ1]; [| |contradiction].
    + exists σ1. split; [eapply advanced_eq; [eassumption|lia|lia]|].
      destruct H as (Hself & _). simpl. rewrite Hself. reflexivity.
    + destruct H as (k & Hab & Hk). exists k. split; [assumption|lia].
  - pose proof (for_range_issues _ 0 1 (Z.to_nat (Z.abs steps))
                  (z_group_issues (if 0 <? steps then FORWARD else BACKWARD))
                  eq_refl σ σ 0 0 Hdelay (advanced_refl σ)) as H.
    destruct (for_range _ _ σ) as [[[]|e|] σ1]; [| |contradiction].
    + exists σ1. split; [eapply advanced_eq; [eassumption|lia|lia]|].
      destruct H as (Hself & _). simpl. rewrite Hself. reflexivity.
    + destruct H as (k & Hab & Hk). exists k. split; [assumption|lia].
Qed.

(** A coordinated move with enough fuel for its groups: it returns at
    the target after [|xs|] X groups and [|zs|] Z groups, or a step raised
    before all groups were out. *)
Lemma move_to_spec fuel x_mm z_mm (σ : state) xs zs :
  sleep_error (step_delay (self σ)) = None →
  py_round ((x_mm - pos_x (position (self σ))) * steps_per_mm_x (self σ))%float = inr xs →
  py_round ((z_mm - pos_z (position (self σ))) * steps_per_mm_z (self σ))%float = inr zs →
  Z.abs xs + Z.abs zs ≤ Z.of_nat fuel →
  match move_to fuel x_mm z_mm σ with
  | (Ok _, σ') =>
      ∃ σ1, advanced σ σ1 (Z.abs xs) (Z.abs zs) ∧
            σ' = set_self (set_position {| pos_x := x_mm; pos_z := z_mm |} (self σ)) σ1
  | (Raise e, σ') => ∃ k, aborted σ σ' e k ∧ 0 ≤ k < Z.abs xs + Z.abs zs
  | (OutOfFuel, _) => False
  end.
Proof.
  intros Hdelay Hrx Hrz Hfuel. unfold move_to.
  rewrite run_bind, run_get, run_bind, run_lift, Hrx, run_bind, run_lift, Hrz, run_bind.
  pose proof (interleave_spec (Z.abs xs) (Z.abs zs)
                (if 0 <? xs then FORWARD else BACKWARD)
                (if 0 <? zs then FORWARD else BACKWARD) fuel
                (Z.abs xs - Z.abs zs, 0, 0) σ σ Hdelay) as H.
  simpl in H. specialize (H ltac:(lia) (advanced_refl σ) ltac:(lia)).
  destruct (interleave _ _ _ _ _ _ σ) as [[[]|e|] σ1]; [| |contradiction].
  - exists σ1. split; [assumption|].
    destruct H as (Hself & _). run. rewrite Hself. reflexivity.
  - destruct H as (k & Hab & Hk). exists k. split; [assumption|lia].
Qed.

(** With no steps to make a single-axis move returns where it started. *)
Lemma move_axis_no_steps axis mm (σ : state) :
  py_round (mm * steps_per_mm (self σ) axis)%float = inr 0 →
  move_axis axis mm σ = (Ok tt, σ).
Proof.
  intros Hround.
  destruct axis; simpl in Hround; unfold move_axis, move_x, move_z;
    rewrite run_bind, run_get, run_bind, run_lift, Hround; reflexivity.
Qed.

(** With no steps to make on either axis the loop is not entered. *)
Lemma move_to_no_steps fuel x_mm z_mm (σ : state) :
  py_round ((x_mm - pos_x (position (self σ))) * steps_per_mm_x (self σ))%float = inr 0 →
  py_round ((z_mm - pos_z (position (self σ))) * steps_per_mm_z (self σ))%float = inr 0 →
  move_to fuel x_mm z_mm σ
  = (Ok tt, set_self (set_position {| pos_x := x_mm; pos_z := z_mm |} (self σ)) σ).
Proof.
  intros Hrx Hrz. unfold move_to.
  rewrite run_bind, run_get, run_bind, run_lift, Hrx, run_bind, run_lift, Hrz, run_bind.
  destruct fuel; reflexivity.
Qed.

Lemma app_same_nil {A} (l1 l2 : list A) : l2 = l1 ++ l2 → l1 = [].
Proof.
  intros H. apply (f_equal length) in H. rewrite length_app in H.
  destruct l1; [reflexivity | simpl in H; lia].
Qed.

(** *** Unresolved channels *)

(** A channel that does not resolve binds its motor to [None]. *)
Lemma bind_stepper_unresolved the_kit name channel (acc : gmap string (option Handle)) :
  REAL_HARDWARE = false ∨ kit_getattr the_kit ("stepper" +:+ pretty channel) = None →
  bind_stepper REAL_HARDWARE the_kit acc (name, channel) = <[name := None]> acc.
Proof.
  unfold bind_stepper, kit_hasattr. intros [->| ->]; [reflexivity|].
  rewrite andb_false_r. reflexivity.
Qed.

Lemma bind_stepper_other the_kit name n c (acc : gmap string (option Handle)) :
  n ≠ name → bind_stepper REAL_HARDWARE the_kit acc (n, c) !! name = acc !! name.
Proof.
  intros Hne. unfold bind_stepper.
  destruct (_ && _); apply lookup_insert_ne; assumption.
Qed.

Lemma init_steppers_fresh the_kit name channels (acc : gmap string (option Handle)) :
  name ∉ channels.*1 →
  fold_left (bind_stepper REAL_HARDWARE the_kit) channels acc !! name = acc !! name.
Proof.
  revert acc. induction channels as [|[n c] rest IH]; intros acc Hfresh; cbn [fold_left].
  - reflexivity.
  - simpl in Hfresh. apply not_elem_of_cons in Hfresh as [Hne Hfresh].
    rewrite IH by assumption. apply bind_stepper_other. congruence.
Qed.

Lemma init_steppers_unresolved the_kit name channel channels :
  NoDup channels.*1 → (name, channel) ∈ channels →
  REAL_HARDWARE = false ∨ kit_getattr the_kit ("stepper" +:+ pretty channel) = None →
  _init_steppers the_kit channels !! name = Some None.
Proof.
  unfold _init_steppers. generalize (∅ : gmap string (option Handle)).
  induction channels as [|[n c] rest IH]; intros acc Hnd Hin Hun.
  - inversion Hin.
  - simpl in Hnd. apply NoDup_cons in Hnd as [Hfresh Hnd].
    apply elem_of_cons in Hin as [Heq|Hin].
    + injection Heq as <- <-. cbn [fold_left].
      rewrite init_steppers_fresh by assumption.
      rewrite bind_stepper_unresolved by assumption. apply lookup_insert_eq.
    + cbn [fold_left]. apply IH; assumption.
Qed.

(** Every method leaves the wiring alone. *)
Lemma keeps_refl (σ : state) : ∃ p, self σ = set_position p (self σ).
Proof. exists (position (self σ)). destruct (self σ). reflexivity. Qed.

Lemma keeps_bind {A B} (m : M A) (f : A → M B) :
  keeps_wiring m → (∀ a, keeps_wiring (f a)) → keeps_wiring (m ≫= f).
Proof.
  intros Hm Hf σ. rewrite run_bind. specialize (Hm σ).
  destruct (m σ) as [[a|e|] σ1]; simpl in *; try assumption.
  destruct Hm as (p & Hp). destruct (Hf a σ1) as (p' & Hp').
  exists p'. rewrite Hp', Hp. reflexivity.
Qed.

Lemma keeps_pure {A} (m : M A) : (∀ σ, (m σ).2 = σ) → keeps_wiring m.
Proof. intros H σ. rewrite H. apply keeps_refl. Qed.

Lemma keeps_put_position p : keeps_wiring (put_position (Handle := Handle) (HW := HW) p).
Proof. intros σ. exists p. reflexivity. Qed.

Lemma keeps_tell (ev : @event Handle) : keeps_wiring (tell (HW := HW) ev).
Proof. intros σ. exact (keeps_refl σ). Qed.

Lemma keeps_step_motor name d : keeps_wiring (_step_motor name d).
Proof.
  intros σ. pose proof (step_motor_spec name d σ) as H.
  destruct (_step_motor name d σ) as [[[]|e|] σ1]; [| |contradiction];
    destruct H as (Hs & _); simpl; rewrite Hs; apply keeps_refl.
Qed.

Lemma keeps_sleep secs : keeps_wiring (time_sleep (Handle := Handle) (HW := HW) secs).
Proof. intros σ. unfold time_sleep. destruct (sleep_error secs); exact (keeps_refl σ). Qed.

Lemma keeps_step_multiple names d : keeps_wiring (_step_multiple names d).
Proof.
  unfold _step_multiple. apply keeps_bind.
  - induction names as [|nm names IH]; simpl.
    + apply keeps_pure. reflexivity.
    + apply keeps_bind; [apply keeps_step_motor | intros _; exact IH].
  - intros _. apply keeps_bind; [apply keeps_pure; reflexivity | intros mc; apply keeps_sleep].
Qed.

Lemma keeps_for_range n (body : M unit) : keeps_wiring body → keeps_wiring (for_range n body).
Proof.
  intros Hb. induction n as [|n IH]; simpl.
  - apply keeps_pure. reflexivity.
  - apply keeps_bind; [assumption | intros _; exact IH].
Qed.

Lemma keeps_lift {A} (r : exn + A) : keeps_wiring (lift (Handle := Handle) (HW := HW) r).
Proof. apply keeps_pure. intros σ. destruct r; reflexivity. Qed.

Lemma keeps_move_axis axis mm : keeps_wiring (move_axis axis mm).
Proof.
  destruct axis; unfold move_axis, move_x, move_z;
    (apply keeps_bind; [apply keeps_pure; reflexivity | intros mc]);
    (apply keeps_bind; [apply keeps_lift | intros steps]);
    (destruct (steps =? 0); [apply keeps_pure; reflexivity|]);
    (apply keeps_bind; [apply keeps_for_range, keeps_step_multiple | intros _]);
    (apply keeps_bind; [apply keeps_pure; reflexivity | intros mc']);
    apply keeps_put_position.
Qed.

Lemma keeps_loop_body xs zs sx sz v : keeps_wiring (loop_body xs zs sx sz v).
Proof.
  destruct v as [[err x] z]. unfold loop_body.
  apply keeps_bind.
  - destruct (_ && _); [|apply keeps_pure; reflexivity].
    apply keeps_bind; [apply keeps_step_multiple | intros _; apply keeps_pure; reflexivity].
  - intros [err' x']. apply keeps_bind.
    + destruct (_ && _); [|apply keeps_pure; reflexivity].
      apply keeps_bind; [apply keeps_step_multiple | intros _; apply keeps_pure; reflexivity].
    + intros [err'' z']. apply keeps_pure. reflexivity.
Qed.

Lemma keeps_interleave fuel xs zs sx sz : ∀ v, keeps_wiring (interleave fuel xs zs sx sz v).
Proof.
  induction fuel as [|fuel IH]; intros [[err x] z]; cbn [interleave];
    (destruct (_ || _); [|apply keeps_pure; reflexivity]).
  - apply keeps_pure. reflexivity.
  - apply keeps_bind; [apply keeps_loop_body | exact IH].
Qed.

Lemma keeps_move_to fuel x_mm z_mm : keeps_wiring (move_to fuel x_mm z_mm).
Proof.
  unfold move_to.
  apply keeps_bind; [apply keeps_pure; reflexivity | intros mc].
  apply keeps_bind; [apply keeps_lift | intros xs].
  apply keeps_bind; [apply keeps_lift | intros zs].
  apply keeps_bind; [apply keeps_interleave | intros _].
  apply keeps_bind; [apply keeps_pure; reflexivity | intros mc1].
  apply keeps_bind; [apply keeps_put_position | intros _].
  apply keeps_bind; [apply keeps_pure; reflexivity | intros mc2].
  apply keeps_put_position.
Qed.

Lemma keeps_home : keeps_wiring (_home (Handle := Handle) (HW := HW)).
Proof.
  unfold _home, _update_position.
  apply keeps_bind; [apply keeps_put_position | intros _].
  apply keeps_bind.
  - apply keeps_bind; [apply keeps_pure; reflexivity | intros mc; apply keeps_tell].
  - intros _. apply keeps_tell.
Qed.

(** A motor on the simulated channel only prints. *)
Lemma step_motor_simulated name d (σ : state) :
  simulated (self σ) name → _step_motor name d σ = (Ok tt, emit (EvStub name d) σ).
Proof.
  unfold _step_motor. intros [->|Hnone]; [reflexivity|].
  rewrite Hnone. destruct REAL_HARDWARE; reflexivity.
Qed.

Lemma stub_groups_snoc n name d delay :
  stub_groups (Handle := Handle) n name d delay ++ [EvSleep delay; EvStub name d]
  = stub_groups (S n) name d delay.
Proof.
  unfold stub_groups. induction n as [|n IH]; [reflexivity|].
  simpl in *. rewrite IH. reflexivity.
Qed.

Lemma stub_groups_counts n name d delay :
  count is_physical (stub_groups (Handle := Handle) n name d delay) = O ∧
  count (stepped name) (stub_groups (Handle := Handle) n name d delay) = n.
Proof.
  unfold stub_groups. induction n as [|n [IH1 IH2]]; [split; reflexivity|].
  simpl. rewrite IH1, IH2. unfold stepped. simpl. rewrite String.eqb_refl.
  split; reflexivity.
Qed.

Lemma for_range_simulated n name d (σ : state) :
  sleep_error (step_delay (self σ)) = None →
  simulated (self σ) name →
  for_range n (_step_multiple [name] d) σ
  = (Ok tt, {| self := self σ; hw := hw σ;
               out := stub_groups n name d (step_delay (self σ)) ++ out σ |}).
Proof.
  revert σ. induction n as [|n IH]; intros σ Hdelay Hsim.
  - destruct σ. reflexivity.
  - cbn [for_range]. rewrite run_bind, step_multiple_one, step_motor_simulated by assumption.
    rewrite run_sleep by exact Hdelay.
    rewrite IH by assumption. cbn [self hw out emit].
    rewrite <- stub_groups_snoc, <- app_assoc. reflexivity.
Qed.

Lemma move_z_simulated mm (σ : state) steps :
  sleep_error (step_delay (self σ)) = None →
  simulated (self σ) "z_axis" →
  py_round (mm * steps_per_mm_z (self σ))%float = inr steps → steps ≠ 0 →
  move_z mm σ
  = (Ok tt,
     {| self := set_position (bump AxisZ mm (position (self σ))) (self σ);
        hw := hw σ;
        out := stub_groups (Z.to_nat (Z.abs steps)) "z_axis"
                 (if 0 <? steps then FORWARD else BACKWARD) (step_delay (self σ))
               ++ out σ |}).
Proof.
  intros Hdelay Hsim Hround Hnz. apply Z.eqb_neq in Hnz. unfold move_z.
  rewrite run_bind, run_get, run_bind, run_lift, Hround, Hnz, run_bind.
  rewrite for_range_simulated by assumption. reflexivity.
Qed.

(** ** The claims *)

(** C1. A single-axis move that has steps to make and returns has added
    the requested distance [mm] itself to the coordinate of its axis (the
    float [+=] of the program), whatever the calibration; the other
    coordinate is as before, and the move issued [|steps|] groups.  With
    a [step_delay] that [time.sleep] accepts, it fails to return only when
    a physical step raises. *)
Theorem move_axis_adds_requested_distance axis mm (σ : state) steps :
  sleep_error (step_delay (self σ)) = None →
  py_round (mm * steps_per_mm (self σ) axis)%float = inr steps → steps ≠ 0 →
  match move_axis axis mm σ with
  | (Ok _, σ') =>
      coordinate (position (self σ')) axis
        = (coordinate (position (self σ)) axis + mm)%float ∧
      coordinate (position (self σ')) (other axis)
        = coordinate (position (self σ)) (other axis) ∧
      ∃ evs, out σ' = evs ++ out σ ∧ groups axis evs = Z.abs steps
  | (Raise e, _) => ¬ quiet
  | (OutOfFuel, _) => False
  end.
Proof.
  intros Hdelay Hround Hnz.
  pose proof (move_axis_spec axis mm σ steps Hdelay Hround Hnz) as H.
  destruct (move_axis axis mm σ) as [[[]|e|] σ']; [| |contradiction].
  - destruct H as (σ1 & (Hself & evs & Hout & Hxl & _ & Hz & _) & ->).
    destruct axis; simpl; (split; [reflexivity|]; split; [reflexivity|]);
      exists evs; (split; [assumption|]); assumption.
  - destruct H as (k & Hab & _). intros Hq. exact (quiet_not_aborted _ _ _ _ Hq Hab).
Qed.

(** C2. A coordinated move that returns has issued [|x_steps|] X groups
    and [|z_steps|] Z groups, the rounded step counts of the two
    millimetre deltas, each group followed by one pause; with both deltas
    zero it returns having logged nothing.  With a [step_delay] that
    [time.sleep] accepts, it fails to return only when a physical step
    raises. *)
Theorem move_to_step_groups fuel x_mm z_mm (σ : state) xs zs :
  let dx := (x_mm - pos_x (position (self σ)))%float in
  let dz := (z_mm - pos_z (position (self σ)))%float in
  sleep_error (step_delay (self σ)) = None →
  py_round (dx * steps_per_mm_x (self σ))%float = inr xs →
  py_round (dz * steps_per_mm_z (self σ))%float = inr zs →
  Z.abs xs + Z.abs zs ≤ Z.of_nat fuel →
  match move_to fuel x_mm z_mm σ with
  | (Ok _, σ') =>
      ∃ evs, out σ' = evs ++ out σ ∧
        x_groups evs = Z.abs xs ∧ Z.of_nat (count (stepped "x_right") evs) = Z.abs xs ∧
        z_groups evs = Z.abs zs ∧
        Z.of_nat (count is_sleep evs) = Z.abs xs + Z.abs zs ∧
        (is_zero dx → is_zero dz → evs = [])
  | (Raise e, _) => ¬ quiet ∧ ¬ (is_zero dx ∧ is_zero dz)
  | (OutOfFuel, _) => False
  end.
Proof.
  intros dx dz Hdelay Hrx Hrz Hfuel.
  assert (Hzero : is_zero dx → is_zero dz →
            move_to fuel x_mm z_mm σ
            = (Ok tt, set_self (set_position {| pos_x := x_mm; pos_z := z_mm |} (self σ)) σ)).
  { intros Hzx Hzz. apply move_to_no_steps.
    - fold dx. rewrite (py_round_mul_zero _ _ Hzx) in Hrx |- *.
      destruct (is_finite _); congruence.
    - fold dz. rewrite (py_round_mul_zero _ _ Hzz) in Hrz |- *.
      destruct (is_finite _); congruence. }
  pose proof (move_to_spec fuel x_mm z_mm σ xs zs Hdelay Hrx Hrz Hfuel) as H.
  destruct (move_to fuel x_mm z_mm σ) as [[[]|e|] σ']; [| |contradiction].
  - destruct H as (σ1 & (Hself & evs & Hout & Hxl & Hxr & Hz & Hsl & _) & ->).
    exists evs. simpl. repeat (split; [assumption|]).
    intros Hzx Hzz. specialize (Hzero Hzx Hzz).
    apply (f_equal (λ r, out r.2)) in Hzero as Hσ. simpl in Hσ. rewrite Hout in Hσ.
    symmetry in Hσ. exact (app_same_nil _ _ Hσ).
  - destruct H as (k & Hab & _). split.
    + intros Hq. exact (quiet_not_aborted _ _ _ _ Hq Hab).
    + intros [Hzx Hzz]. specialize (Hzero Hzx Hzz). discriminate.
Qed.

(** C3. A coordinated move that returns leaves Position at exactly the
    target it was given: both coordinates are assigned, not accumulated.
    With a [step_delay] that [time.sleep] accepts, it fails to return only
    when a physical step raises. *)
Theorem move_to_sets_target fuel x_mm z_mm (σ : state) xs zs :
  sleep_error (step_delay (self σ)) = None →
  py_round ((x_mm - pos_x (position (self σ))) * steps_per_mm_x (self σ))%float = inr xs →
  py_round ((z_mm - pos_z (position (self σ))) * steps_per_mm_z (self σ))%float = inr zs →
  Z.abs xs + Z.abs zs ≤ Z.of_nat fuel →
  match move_to fuel x_mm z_mm σ with
  | (Ok _, σ') => position (self σ') = {| pos_x := x_mm; pos_z := z_mm |}
  | (Raise e, _) => ¬ quiet
  | (OutOfFuel, _) => False
  end.
Proof.
  intros Hdelay Hrx Hrz Hfuel.
  pose proof (move_to_spec fuel x_mm z_mm σ xs zs Hdelay Hrx Hrz Hfuel) as H.
  destruct (move_to fuel x_mm z_mm σ) as [[[]|e|] σ']; [| |contradiction].
  - destruct H as (σ1 & _ & ->). reflexivity.
  - destruct H as (k & Hab & _). intros Hq. exact (quiet_not_aborted _ _ _ _ Hq Hab).
Qed.

(** C4. When the distance rounds to zero steps, a single-axis move does
    nothing at all: it returns in the state it was called in, so the log
    (driver calls and pauses), the rig and the position are untouched. *)
Theorem move_axis_zero_steps_noop axis mm (σ : state) :
  py_round (mm * steps_per_mm (self σ) axis)%float = inr 0 →
  move_axis axis mm σ = (Ok tt, σ).
Proof.
  intros Hround.
  destruct axis; simpl in Hround; unfold move_axis, move_x, move_z;
    rewrite run_bind, run_get, run_bind, run_lift, Hround;
    reflexivity.
Qed.


(** C6. A motor whose channel does not resolve (no real hardware, or no
    such stepper on the kit) does not stop construction: [__init__]
    returns a controller in which the motor is bound to [None], no method
    ever rebinds it, and such a motor only prints.  So with [z_axis]
    unresolved, [move_z(2.0)] with steps to make and a [step_delay] that
    [time.sleep] accepts returns, touches neither the rig nor any physical
    channel, and adds 2.0 to Position.z. *)
Theorem unresolved_motor_is_simulated cfg style cal channels name channel :
  getattr_Stepper (default "SINGLE"%string (cfg_step_style cfg)) = Some style →
  cfg_calibration cfg = Some cal →
  cfg_motors cfg = Some channels → NoDup channels.*1 → (name, channel) ∈ channels →
  REAL_HARDWARE = false ∨ MotorKit ("stepper" +:+ pretty channel) = None →
  ∃ mc, __init__ cfg = inr mc ∧ steppers mc !! name = Some None ∧
    ∀ σ : state, steppers (self σ) = steppers mc →
      simulated (self σ) name ∧
      (∀ axis mm, steppers (self (move_axis axis mm σ).2) = steppers mc) ∧
      (∀ fuel x_mm z_mm, steppers (self (move_to fuel x_mm z_mm σ).2) = steppers mc) ∧
      steppers (self (_home σ).2) = steppers mc ∧
      (name = "z_axis"%string → sleep_error (step_delay (self σ)) = None →
       ∀ steps, py_round (2 * steps_per_mm_z (self σ))%float = inr steps → steps ≠ 0 →
         ∃ σ' evs, move_z 2 σ = (Ok tt, σ') ∧
           hw σ' = hw σ ∧ out σ' = evs ++ out σ ∧ count is_physical evs = O ∧
           z_groups evs = Z.abs steps ∧
           pos_z (position (self σ')) = (pos_z (position (self σ)) + 2)%float ∧
           pos_x (position (self σ')) = pos_x (position (self σ))).
Proof.
  intros Hstyle Hcal Hmotors Hnd Hin Hun.
  unfold __init__. rewrite Hstyle, Hcal, Hmotors. eexists. split; [reflexivity|].
  cbn [steppers default].
  assert (Hbound : _init_steppers (if REAL_HARDWARE then Some MotorKit else None) channels
                   !! name = Some None).
  { apply (init_steppers_unresolved _ name channel); [assumption|assumption|].
    destruct Hun as [->|Hun]; [left; reflexivity|].
    destruct REAL_HARDWARE; [right; exact Hun | left; reflexivity]. }
  split; [exact Hbound|].
  intros σ Hσ. cbn [steppers] in Hσ. unfold id in Hσ.
  assert (Hsim : simulated (self σ) name).
  { right. rewrite Hσ, Hbound. reflexivity. }
  split; [exact Hsim|].
  split; [|split; [|split]].
  - intros axis mm. destruct (keeps_move_axis axis mm σ) as (p & ->). exact Hσ.
  - intros fuel x_mm z_mm. destruct (keeps_move_to fuel x_mm z_mm σ) as (p & ->). exact Hσ.
  - destruct (keeps_home σ) as (p & ->). exact Hσ.
  - intros -> Hdelay steps Hround Hnz.
    eexists. eexists. split; [apply (move_z_simulated _ _ steps); assumption|].
    cbn [hw out self position set_position bump pos_x pos_z].
    destruct (stub_groups_counts (Z.to_nat (Z.abs steps)) "z_axis"
                (if 0 <? steps then FORWARD else BACKWARD) (step_delay (self σ)))
      as [Hphys Hz].
    repeat split; [exact Hphys|]. unfold z_groups. rewrite Hz. lia.
Qed.

(** C7 as the program has it. On a controller whose [step_delay]
    [time.sleep] accepts, every move whose step counts are defined ends in
    one of two ways.  It returns, and then no physical step raised during
    it.  Or a physical step raised: the move raises that exception, the
    raising call is the last thing it did (after fewer whole groups than
    it had to issue, none of them undone or repeated), and the controller
    object, Position included, is as it was before the move. *)
Theorem step_failure_aborts_move :
  (∀ axis mm (σ : state) steps,
     sleep_error (step_delay (self σ)) = None →
     py_round (mm * steps_per_mm (self σ) axis)%float = inr steps →
     match move_axis axis mm σ with
     | (Ok _, σ') => ∃ evs, out σ' = evs ++ out σ ∧ count is_raised evs = O
     | (Raise e, σ') =>
         position (self σ') = position (self σ) ∧
         ∃ k, aborted σ σ' e k ∧ 0 ≤ k < Z.abs steps
     | (OutOfFuel, _) => False
     end) ∧
  (∀ fuel x_mm z_mm (σ : state) xs zs,
     sleep_error (step_delay (self σ)) = None →
     py_round ((x_mm - pos_x (position (self σ))) * steps_per_mm_x (self σ))%float = inr xs →
     py_round ((z_mm - pos_z (position (self σ))) * steps_per_mm_z (self σ))%float = inr zs →
     Z.abs xs + Z.abs zs ≤ Z.of_nat fuel →
     match move_to fuel x_mm z_mm σ with
     | (Ok _, σ') => ∃ evs, out σ' = evs ++ out σ ∧ count is_raised evs = O
     | (Raise e, σ') =>
         position (self σ') = position (self σ) ∧
         ∃ k, aborted σ σ' e k ∧ 0 ≤ k < Z.abs xs + Z.abs zs
     | (OutOfFuel, _) => False
     end).
Proof.
  split.
  - intros axis mm σ steps Hdelay Hround.
    destruct (Z.eq_dec steps 0) as [->|Hnz].
    + rewrite (move_axis_no_steps _ _ _ Hround). exists []. split; reflexivity.
    + pose proof (move_axis_spec axis mm σ steps Hdelay Hround Hnz) as H.
      destruct (move_axis axis mm σ) as [[[]|e|] σ']; [| |contradiction].
      * destruct H as (σ1 & (_ & evs & Hout & _ & _ & _ & _ & Hr) & ->).
        exists evs. split; assumption.
      * destruct H as (k & Hab & Hk).
        split; [|exists k; split; assumption].
        destruct Hab as (-> & _). reflexivity.
  - intros fuel x_mm z_mm σ xs zs Hdelay Hrx Hrz Hfuel.
    pose proof (move_to_spec fuel x_mm z_mm σ xs zs Hdelay Hrx Hrz Hfuel) as H.
    destruct (move_to fuel x_mm z_mm σ) as [[[]|e|] σ']; [| |contradiction].
    + destruct H as (σ1 & (_ & evs & Hout & _ & _ & _ & _ & Hr) & ->).
      exists evs. split; assumption.
    + destruct H as (k & Hab & Hk).
      split; [|exists k; split; assumption].
      destruct Hab as (-> & _). reflexivity.
Qed.

(** C8. [Home] puts Position at (0, 0) from any position: it returns,
    the rig is not touched, and what it logs (the labels and the message
    box) holds no driver call and no pause. *)
Theorem home_resets_position (σ : state) :
  ∃ σ' evs, _home σ = (Ok tt, σ') ∧
    position (self σ') = {| pos_x := 0; pos_z := 0 |} ∧
    hw σ' = hw σ ∧ out σ' = evs ++ out σ ∧
    count is_driver_call evs = O ∧ count is_sleep evs = O.
Proof.
  exists (_home σ).2, [EvShowInfo "Home" "Position reset to (0,0)"; EvLabels 0 0].
  repeat split.
Qed.

(** C9. When both step counts round to zero, a coordinated move returns
    at once, with any fuel: the log and the rig are as they were, no
    driver call was made, and yet Position is the target. *)
Theorem move_to_zero_steps_sets_target fuel x_mm z_mm (σ : state) :
  py_round ((x_mm - pos_x (position (self σ))) * steps_per_mm_x (self σ))%float = inr 0 →
  py_round ((z_mm - pos_z (position (self σ))) * steps_per_mm_z (self σ))%float = inr 0 →
  ∃ σ', move_to fuel x_mm z_mm σ = (Ok tt, σ') ∧
        out σ' = out σ ∧ hw σ' = hw σ ∧
        position (self σ') = {| pos_x := x_mm; pos_z := z_mm |}.
Proof.
  intros Hrx Hrz. eexists. split; [apply move_to_no_steps; assumption|].
  repeat split.
Qed.

(** C10. The interleaving loop ends for every pair of non-negative step
    counts.  The loop invariant holds on entry; under it, while a counter
    is short of its target a guard holds, so a pass that returns has moved
    [x + z] up and kept the invariant; and with fuel for [x_steps +
    z_steps] passes the loop is never cut short: it returns with both
    counters at their targets, unless a physical step raised (the
    controller's [step_delay] being one that [time.sleep] accepts). *)
Theorem interleave_terminates xs zs sx sz :
  0 ≤ xs → 0 ≤ zs →
  loop_inv xs zs (xs - zs, 0, 0) ∧
  (∀ err x z, loop_inv xs zs (err, x, z) → x < xs ∨ z < zs →
     ((x <? xs) && (- zs <? err * 2) = true ∨ (z <? zs) && (err * 2 <? xs) = true) ∧
     ∀ σ : state, sleep_error (step_delay (self σ)) = None →
       match loop_body xs zs sx sz (err, x, z) σ with
       | (Ok v', _) => loop_inv xs zs v' ∧ x + z < v'.1.2 + v'.2
       | (Raise _, _) => ¬ quiet
       | (OutOfFuel, _) => False
       end) ∧
  (∀ fuel (σ : state),
     sleep_error (step_delay (self σ)) = None → xs + zs ≤ Z.of_nat fuel →
     match interleave fuel xs zs sx sz (xs - zs, 0, 0) σ with
     | (Ok _, σ') => ∃ evs, out σ' = evs ++ out σ ∧ x_groups evs = xs ∧ z_groups evs = zs
     | (Raise _, _) => ¬ quiet
     | (OutOfFuel, _) => False
     end).
Proof.
  intros Hxs Hzs.
  assert (Hinit : loop_inv xs zs (xs - zs, 0, 0)) by (unfold loop_inv; lia).
  split; [exact Hinit|]. split.
  - intros err x z Hinv Hlt. split; [exact (guards_cover _ _ _ _ _ Hinv Hlt)|].
    intros σ Hdelay.
    pose proof (loop_body_spec xs zs sx sz err x z σ σ 0 0 Hdelay Hinv Hlt (advanced_refl σ))
      as H.
    destruct (loop_body xs zs sx sz (err, x, z) σ) as [[v'|e|] σ1]; [| |contradiction].
    + destruct H as (Hinv' & Hprog & _). split; assumption.
    + destruct H as (k & Hab & _). intros Hq. exact (quiet_not_aborted _ _ _ _ Hq Hab).
  - intros fuel σ Hdelay Hfuel.
    pose proof (interleave_spec xs zs sx sz fuel (xs - zs, 0, 0) σ σ Hdelay Hinit
                  (advanced_refl σ) ltac:(simpl; lia)) as H.
    destruct (interleave fuel xs zs sx sz (xs - zs, 0, 0) σ) as [[[]|e|] σ1];
      [| |contradiction].
    + destruct H as (_ & evs & Hout & Hxl & _ & Hz & _). exists evs. repeat split; assumption.
    + destruct H as (k & Hab & _). intros Hq. exact (quiet_not_aborted _ _ _ _ Hq Hab).
Qed.

End Facts.

(** ** The claims on the two rigs *)

(** The step count is [round(0.13 * 80) = 10], so the rig moves 0.125 mm,
    and Position.x becomes 0.13. *)
Lemma move_axis_adds_requested_distance_witness :
  sleep_error (step_delay (self (stub_state origin))) = None ∧
  py_round (0.13 * steps_per_mm (self (stub_state origin)) AxisX)%float = inr 10 ∧
  match move_axis false no_rig AxisX 0.13 (stub_state origin) with
  | (Ok _, σ') =>
      coordinate (position (self σ')) AxisX
        = (coordinate (position (self (stub_state origin))) AxisX + 0.13)%float ∧
      coordinate (position (self σ')) (other AxisX)
        = coordinate (position (self (stub_state origin))) (other AxisX) ∧
      ∃ evs, out σ' = evs ++ out (stub_state origin) ∧ groups AxisX evs = Z.abs 10
  | (Raise e, _) => ¬ quiet false no_rig
  | (OutOfFuel, _) => False
  end.
Proof.
  split; [vm_compute; reflexivity|]. split; [vm_compute; reflexivity|].
  apply (move_axis_adds_requested_distance false no_rig AxisX 0.13 (stub_state origin) 10).
  - vm_compute. reflexivity.
  - vm_compute. reflexivity.
  - lia.
Defined.

Lemma requested_not_step_derived :
  ∃ σ', move_x false no_rig 0.13 (stub_state origin) = (Ok tt, σ') ∧
        pos_x (position (self σ')) = 0.13%float ∧
        (10 / 80 =? 0.13)%float = false.
Proof. eexists. split; [vm_compute; reflexivity|]. split; vm_compute; reflexivity. Qed.

Lemma move_axis_zero_steps_noop_witness :
  py_round (0.001 * steps_per_mm (self (stub_state origin)) AxisX)%float = inr 0 ∧
  move_axis false no_rig AxisX 0.001 (stub_state origin) = (Ok tt, stub_state origin).
Proof.
  split; [vm_compute; reflexivity|].
  apply (move_axis_zero_steps_noop false no_rig AxisX 0.001 (stub_state origin)).
  vm_compute. reflexivity.
Defined.

(** From the origin to (0.0625, -0.02): 5 X groups and 2 Z groups. *)
Lemma move_to_step_groups_witness :
  match move_to false no_rig 7 0.0625 (-0.02) (stub_state origin) with
  | (Ok _, σ') =>
      ∃ evs, out σ' = evs ++ out (stub_state origin) ∧
        x_groups evs = Z.abs 5 ∧ Z.of_nat (count (stepped "x_right") evs) = Z.abs 5 ∧
        z_groups evs = Z.abs (-2) ∧
        Z.of_nat (count is_sleep evs) = Z.abs 5 + Z.abs (-2) ∧
        (is_zero (0.0625 - pos_x (position (self (stub_state origin)))) →
         is_zero (-0.02 - pos_z (position (self (stub_state origin)))) → evs = [])
  | (Raise e, _) =>
      ¬ quiet false no_rig ∧
      ¬ (is_zero (0.0625 - pos_x (position (self (stub_state origin)))) ∧
         is_zero (-0.02 - pos_z (position (self (stub_state origin)))))
  | (OutOfFuel, _) => False
  end.
Proof.
  apply (move_to_step_groups false no_rig 7 0.0625 (-0.02) (stub_state origin) 5 (-2)).
  - vm_compute. reflexivity.
  - vm_compute. reflexivity.
  - vm_compute. reflexivity.
  - simpl. lia.
Defined.

Lemma move_to_sets_target_witness :
  match move_to false no_rig 7 0.0625 (-0.02) (stub_state origin) with
  | (Ok _, σ') => position (self σ') = {| pos_x := 0.0625; pos_z := -0.02 |}
  | (Raise e, _) => ¬ quiet false no_rig
  | (OutOfFuel, _) => False
  end.
Proof.
  apply (move_to_sets_target false no_rig 7 0.0625 (-0.02) (stub_state origin) 5 (-2)).
  - vm_compute. reflexivity.
  - vm_compute. reflexivity.
  - vm_compute. reflexivity.
  - simpl. lia.
Defined.

(** A target 0.001 mm and 0.002 mm off the origin: both deltas are not
    zero, both step counts are. *)
Lemma move_to_zero_steps_sets_target_witness :
  (0.001 - pos_x origin =? 0)%float = false ∧ (0.002 - pos_z origin =? 0)%float = false ∧
  ∃ σ', move_to false no_rig 0 0.001 0.002 (stub_state origin) = (Ok tt, σ') ∧
        out σ' = out (stub_state origin) ∧ hw σ' = hw (stub_state origin) ∧
        position (self σ') = {| pos_x := 0.001; pos_z := 0.002 |}.
Proof.
  split; [vm_compute; reflexivity|]. split; [vm_compute; reflexivity|].
  apply (move_to_zero_steps_sets_target false no_rig 0 0.001 0.002 (stub_state origin)).
  - vm_compute. reflexivity.
  - vm_compute. reflexivity.
Defined.

Lemma interleave_terminates_witness :
  (0 ≤ 5 ∧ 0 ≤ 2) ∧
  match interleave false no_rig 7 5 2 FORWARD FORWARD (5 - 2, 0, 0) (stub_state origin) with
  | (Ok _, σ') =>
      ∃ evs, out σ' = evs ++ out (stub_state origin) ∧ x_groups evs = 5 ∧ z_groups evs = 2
  | (Raise _, _) => ¬ quiet false no_rig
  | (OutOfFuel, _) => False
  end.
Proof.
  split; [lia|].
  apply (interleave_terminates false no_rig 5 2 FORWARD FORWARD);
    [lia | lia | vm_compute; reflexivity | simpl; lia].
Defined.

(** [Home] on the bench. *)
Lemma home_on_the_bench :
  _home (stub_state {| pos_x := 0.13; pos_z := -2 |})
  = (Ok tt, {| self := stub_controller origin; hw := O;
               out := [EvShowInfo "Home" "Position reset to (0,0)"; EvLabels 0 0] |}).
Proof. reflexivity. Qed.

(** The real kit has no third stepper: [z_axis], on channel 3, is
    unresolved.  The rig below fails on its very first call, and is never
    called. *)
Lemma unresolved_motor_is_simulated_witness :
  ∃ mc, __init__ true two_port_kit default_cfg = inr mc ∧
        steppers mc !! "z_axis"%string = Some None ∧
        ∃ σ' evs, move_z true (flaky_rig 0) 2 {| self := mc; hw := O; out := [] |} = (Ok tt, σ') ∧
          hw σ' = O ∧ out σ' = evs ++ [] ∧ count is_physical evs = O ∧
          z_groups evs = Z.abs 200 ∧
          pos_z (position (self σ')) = (0 + 2)%float ∧
          pos_x (position (self σ')) = 0%float.
Proof.
  destruct (unresolved_motor_is_simulated true two_port_kit (flaky_rig 0) default_cfg
              SINGLE {| cal_steps_per_mm_x := None; cal_steps_per_mm_z := None |}
              [("x_left", 1); ("x_right", 2); ("z_axis", 3)]%string "z_axis" 3
              eq_refl eq_refl eq_refl)
    as (mc & Hinit & Hbound & Hlife).
  - apply (bool_decide_unpack _). vm_compute. reflexivity.
  - apply (bool_decide_unpack _). vm_compute. reflexivity.
  - right. reflexivity.
  - exists mc. split; [exact Hinit|]. split; [exact Hbound|].
    destruct (Hlife {| self := mc; hw := O; out := [] |} eq_refl) as (_ & _ & _ & _ & Hz).
    injection Hinit as <-.
    exact (Hz eq_refl ltac:(vm_compute; reflexivity) 200 ltac:(vm_compute; reflexivity)
             ltac:(lia)).
Defined.

(** A rig whose second call fails, asked for two X groups (four calls):
    the move raises after two calls, and Position.x is still 0. *)
Lemma move_x_stops_at_failed_step :
  ∃ σ', py_round (0.025 * steps_per_mm_x (self (real_state origin)))%float = inr 2 ∧
        move_x true (flaky_rig 1) 0.025 (real_state origin) = (Raise OSError, σ') ∧
        count is_driver_call (out σ') = 2%nat ∧ count is_sleep (out σ') = 0%nat ∧
        hw σ' = 2%nat ∧
        pos_x (position (self σ')) = 0%float ∧
        ((0 + 0.025)%float =? 0)%float = false.
Proof.
  eexists. split; [vm_compute; reflexivity|]. split; [vm_compute; reflexivity|].
  repeat split; vm_compute; reflexivity.
Qed.

Lemma step_failure_aborts_move_witness :
  match move_axis true (flaky_rig 1) AxisX 0.025 (real_state origin) with
  | (Ok _, σ') => ∃ evs, out σ' = evs ++ out (real_state origin) ∧ count is_raised evs = O
  | (Raise e, σ') =>
      position (self σ') = position (self (real_state origin)) ∧
      ∃ k, aborted true (flaky_rig 1) (real_state origin) σ' e k ∧ 0 ≤ k < Z.abs 2
  | (OutOfFuel, _) => False
  end.
Proof.
  apply (proj1 (step_failure_aborts_move true (flaky_rig 1)) AxisX 0.025%float
           (real_state origin) 2).
  - vm_compute. reflexivity.
  - vm_compute. reflexivity.
Defined.


(** From the home position, out by 0.2 and back: Position.x is 0 again. *)
Lemma round_trip_from_home :
  ∃ σ1 σ2,
    move_x false no_rig 0.2 (stub_state origin) = (Ok tt, σ1) ∧
    move_x false no_rig (-0.2) σ1 = (Ok tt, σ2) ∧
    pos_x (position (self σ2)) = 0%float.
Proof.
  eexists. eexists. split; [vm_compute; reflexivity|]. split; vm_compute; reflexivity.
Qed.

(** ** More of the program *)

Section MoreFacts.

Context {Handle HW : Type}.
Variable REAL_HARDWARE : bool.
Variable MotorKit : string → option Handle.
Variable onestep : Handle → Stepper → Stepper → HW → option exn * HW.

Local Abbreviation state := (@state Handle HW).
Local Abbreviation M := (@M Handle HW).
Local Abbreviation _step_motor := (_step_motor REAL_HARDWARE onestep).
Local Abbreviation _step_multiple := (_step_multiple REAL_HARDWARE onestep).
Local Abbreviation move_x := (move_x REAL_HARDWARE onestep).
Local Abbreviation move_z := (move_z REAL_HARDWARE onestep).
Local Abbreviation move_to := (move_to REAL_HARDWARE onestep).
Local Abbreviation move_axis := (move_axis REAL_HARDWARE onestep).
Local Abbreviation loop_body := (loop_body REAL_HARDWARE onestep).
Local Abbreviation interleave := (interleave REAL_HARDWARE onestep).
Local Abbreviation quiet := (quiet REAL_HARDWARE onestep).
Local Abbreviation step_event := (step_event REAL_HARDWARE).
Local Abbreviation group_log := (group_log REAL_HARDWARE).
Local Abbreviation log_of := (log_of REAL_HARDWARE).
Local Abbreviation __init__ := (__init__ REAL_HARDWARE MotorKit).
Local Abbreviation _init_steppers := (_init_steppers (Handle := Handle) REAL_HARDWARE).
Local Abbreviation _move_x := (_move_x REAL_HARDWARE onestep).
Local Abbreviation _move_z := (_move_z REAL_HARDWARE onestep).
Local Abbreviation _step := (_step REAL_HARDWARE onestep).

Ltac steps :=
  repeat first [rewrite run_bind | rewrite run_get | rewrite run_ret | progress simpl].

(** *** The exact log of the calls that return *)

Lemma step_motor_exact name d (σ : state) :
  match _step_motor name d σ with
  | (Ok _, σ') => self σ' = self σ ∧ out σ' = step_event (self σ) name d :: out σ
  | (Raise _, _) => ¬ quiet
  | (OutOfFuel, _) => False
  end.
Proof.
  unfold _step_motor, step_event.
  destruct REAL_HARDWARE eqn:Hreal; [destruct (default None _) as [h|]|];
    try (split; reflexivity).
  destruct (onestep h _ d (hw σ)) as [[e|] w] eqn:Hstep; [|split; reflexivity].
  intros [Hq|Hq]; [discriminate|].
  specialize (Hq h (step_style (self σ)) d (hw σ)). rewrite Hstep in Hq. discriminate.
Qed.

Lemma for_each_exact names d (σ : state) :
  match for_each names (λ nm, _step_motor nm d) σ with
  | (Ok _, σ') =>
      self σ' = self σ ∧
      out σ' = rev (map (λ nm, step_event (self σ) nm d) names) ++ out σ
  | (Raise _, _) => ¬ quiet
  | (OutOfFuel, _) => False
  end.
Proof.
  revert σ. induction names as [|nm names IH]; intros σ.
  - split; reflexivity.
  - cbn [for_each]. rewrite run_bind.
    pose proof (step_motor_exact nm d σ) as H1.
    destruct (_step_motor nm d σ) as [[[]|e|] σ1]; [|assumption|contradiction].
    destruct H1 as (Hself1 & Hout1). specialize (IH σ1).
    destruct (for_each names _ σ1) as [[[]|e|] σ2]; [|assumption|contradiction].
    destruct IH as (Hself2 & Hout2). split; [congruence|].
    rewrite Hout2, Hout1, Hself1. cbn [map rev]. rewrite <- app_assoc. reflexivity.
Qed.

Lemma step_multiple_exact names d (σ : state) :
  sleep_error (step_delay (self σ)) = None →
  match _step_multiple names d σ with
  | (Ok _, σ') => self σ' = self σ ∧ out σ' = group_log (self σ) names d ++ out σ
  | (Raise _, _) => ¬ quiet
  | (OutOfFuel, _) => False
  end.
Proof.
  intros Hdelay. unfold _step_multiple. rewrite run_bind.
  pose proof (for_each_exact names d σ) as H.
  destruct (for_each names _ σ) as [[[]|e|] σ1]; [|assumption|contradiction].
  destruct H as (Hself & Hout). rewrite run_bind, run_get.
  rewrite run_sleep by (rewrite Hself; exact Hdelay).
  split; [assumption|]. cbn [out emit]. rewrite Hout, Hself. reflexivity.
Qed.

Lemma join_replicate_snoc {A} n (g : list A) :
  mjoin (replicate n g) ++ g = mjoin (replicate (S n) g).
Proof.
  induction n as [|n IH]; simpl in *.
  - rewrite app_nil_r. reflexivity.
  - rewrite <- app_assoc, IH. reflexivity.
Qed.

Lemma for_range_exact n names d (σ : state) :
  sleep_error (step_delay (self σ)) = None →
  match for_range n (_step_multiple names d) σ with
  | (Ok _, σ') =>
      self σ' = self σ ∧
      out σ' = mjoin (replicate n (group_log (self σ) names d)) ++ out σ
  | (Raise _, _) => ¬ quiet
  | (OutOfFuel, _) => False
  end.
Proof.
  revert σ. induction n as [|n IH]; intros σ Hdelay.
  - split; reflexivity.
  - cbn [for_range]. rewrite run_bind.
    pose proof (step_multiple_exact names d σ Hdelay) as H1.
    destruct (_step_multiple names d σ) as [[[]|e|] σ1]; [|assumption|contradiction].
    destruct H1 as (Hself1 & Hout1).
    specialize (IH σ1 ltac:(rewrite Hself1; exact Hdelay)).
    destruct (for_range n _ σ1) as [[[]|e|] σ2]; [|assumption|contradiction].
    destruct IH as (Hself2 & Hout2). split; [congruence|].
    rewrite Hout2, Hout1, Hself1, <- join_replicate_snoc, <- app_assoc. reflexivity.
Qed.

(** X1. A single-axis move that has steps to make and returns has logged
    exactly [|steps|] groups, each one step of every motor of the axis in
    the order of the list and then the pause, every step in direction
    FORWARD when [steps > 0] and BACKWARD when [steps < 0], on the channel
    and with the style and delay of the controller.  With a [step_delay]
    that [time.sleep] accepts, it fails to return only when a physical
    step raises. *)
Theorem single_axis_move_log axis mm (σ : state) steps :
  sleep_error (step_delay (self σ)) = None →
  py_round (mm * steps_per_mm (self σ) axis)%float = inr steps → steps ≠ 0 →
  match move_axis axis mm σ with
  | (Ok _, σ') =>
      out σ' = mjoin (replicate (Z.to_nat (Z.abs steps))
                        (group_log (self σ) (motors axis)
                           (if 0 <? steps then FORWARD else BACKWARD)))
               ++ out σ
  | (Raise _, _) => ¬ quiet
  | (OutOfFuel, _) => False
  end.
Proof.
  intros Hdelay Hround Hnz. apply Z.eqb_neq in Hnz.
  destruct axis; simpl in Hround; unfold move_axis, move_x, move_z;
    rewrite run_bind, run_get, run_bind, run_lift, Hround, Hnz, run_bind;
    match goal with |- context [for_range ?n (_step_multiple ?l ?d) σ] =>
      pose proof (for_range_exact n l d σ Hdelay) as H;
      destruct (for_range n (_step_multiple l d) σ) as [[[]|e|] σ1];
        [|assumption|contradiction]
    end;
    destruct H as (_ & Hout); steps; exact Hout.
Qed.

(** *** The passes of the interleaving loop *)

Ltac guards xs zs err x z :=
  destruct (Z.ltb_spec x xs), (Z.ltb_spec (- zs) (err * 2)),
    (Z.ltb_spec z zs), (Z.ltb_spec (err * 2) xs); simpl.

(** One pass keeps the invariant, keeps the point on the line, and brings
    the axis with more steps to make one step nearer its target. *)
Lemma next_counters_spec xs zs err x z :
  loop_inv xs zs (err, x, z) → on_line xs zs (err, x, z) →
  continuing xs zs (err, x, z) = true →
  let v' := next_counters xs zs (err, x, z) in
  loop_inv xs zs v' ∧ on_line xs zs v' ∧
  Z.max (xs - v'.1.2) (zs - v'.2) = Z.max (xs - x) (zs - z) - 1.
Proof.
  unfold loop_inv, on_line, continuing, next_counters.
  intros (Hx & Hz & Herr) Hline Hc. apply orb_prop in Hc.
  assert (Hlt : x < xs ∨ z < zs) by (destruct Hc as [H%Z.ltb_lt|H%Z.ltb_lt]; auto).
  clear Hc. subst err.
  guards xs zs (xs - zs - x * zs + z * xs) x z; repeat split; nia.
Qed.

Lemma tally_app a (l1 l2 : list Axis) : tally a (l1 ++ l2) = tally a l1 + tally a l2.
Proof. induction l1 as [|g l1 IH]; simpl; [reflexivity | rewrite IH; lia]. Qed.

Lemma pass_tally xs zs v :
  tally AxisX (pass_groups xs zs v) = (next_counters xs zs v).1.2 - v.1.2 ∧
  tally AxisZ (pass_groups xs zs v) = (next_counters xs zs v).2 - v.2.
Proof.
  destruct v as [[err x] z]. unfold pass_groups, next_counters.
  destruct ((x <? xs) && (- zs <? err * 2)), ((z <? zs) && (err * 2 <? xs));
    simpl; lia.
Qed.

Lemma schedule_tally passes xs zs :
  ∀ v, tally AxisX (schedule passes xs zs v) = (counters_after passes xs zs v).1.2 - v.1.2 ∧
       tally AxisZ (schedule passes xs zs v) = (counters_after passes xs zs v).2 - v.2.
Proof.
  induction passes as [|n IH]; intros v; cbn [schedule counters_after].
  - simpl. lia.
  - destruct (continuing xs zs v); [|simpl; lia].
    rewrite !tally_app.
    destruct (IH (next_counters xs zs v)) as [IHx IHz].
    destruct (pass_tally xs zs v) as [Hx Hz].
    rewrite IHx, IHz, Hx, Hz. lia.
Qed.

Lemma counters_after_spec passes xs zs :
  ∀ v, loop_inv xs zs v → on_line xs zs v →
       let v' := counters_after passes xs zs v in
       loop_inv xs zs v' ∧ on_line xs zs v' ∧
       Z.max (xs - v'.1.2) (zs - v'.2)
       = Z.max 0 (Z.max (xs - v.1.2) (zs - v.2) - Z.of_nat passes).
Proof.
  induction passes as [|n IH]; intros [[err x] z] Hinv Hline.
  - simpl. split; [assumption|]. split; [assumption|].
    destruct Hinv as (? & ? & _). lia.
  - cbn [counters_after]. destruct (continuing xs zs (err, x, z)) eqn:Hc.
    + destruct (next_counters_spec xs zs err x z Hinv Hline Hc) as (Hinv' & Hline' & Hstep).
      destruct (IH _ Hinv' Hline') as (H1 & H2 & H3).
      split; [assumption|]. split; [assumption|].
      cbv zeta. rewrite H3, Hstep. cbn [fst snd].
      destruct Hinv as (? & ? & _). lia.
    + split; [assumption|]. split; [assumption|].
      simpl in Hc. apply orb_false_elim in Hc as [Hx%Z.ltb_ge Hz%Z.ltb_ge].
      destruct Hinv as (? & ? & _). cbn [fst snd]. lia.
Qed.

Lemma log_of_app (mc : @MotorController Handle) sx sz (gs1 gs2 : list Axis) :
  log_of mc sx sz (gs1 ++ gs2) = log_of mc sx sz gs2 ++ log_of mc sx sz gs1.
Proof.
  induction gs1 as [|g gs1 IH]; simpl.
  - rewrite app_nil_r. reflexivity.
  - rewrite IH, app_assoc. reflexivity.
Qed.

Lemma step_event_name (mc : @MotorController Handle) name d : step_name (step_event mc name d) = Some name.
Proof. unfold step_event. destruct (if REAL_HARDWARE then _ else _); reflexivity. Qed.

Lemma log_of_groups (mc : @MotorController Handle) sx sz gs :
  x_groups (log_of mc sx sz gs) = tally AxisX gs ∧
  z_groups (log_of mc sx sz gs) = tally AxisZ gs.
Proof.
  unfold x_groups, z_groups. induction gs as [|g gs [IHx IHz]]; [split; reflexivity|].
  cbn [log_of tally]. rewrite !count_app, !Nat2Z.inj_add, IHx, IHz.
  destruct g; unfold group_log, stepped; simpl; rewrite ?count_app; simpl;
    rewrite !step_event_name; simpl; split; lia.
Qed.

Lemma loop_body_exact xs zs sx sz v (σ : state) :
  sleep_error (step_delay (self σ)) = None →
  match loop_body xs zs sx sz v σ with
  | (Ok v', σ') =>
      v' = next_counters xs zs v ∧ self σ' = self σ ∧
      out σ' = log_of (self σ) sx sz (pass_groups xs zs v) ++ out σ
  | (Raise _, _) => ¬ quiet
  | (OutOfFuel, _) => False
  end.
Proof.
  intros Hdelay. destruct v as [[err x] z]. unfold loop_body, next_counters, pass_groups.
  rewrite run_bind.
  destruct ((x <? xs) && (- zs <? err * 2)).
  - rewrite run_bind.
    pose proof (step_multiple_exact ["x_left"; "x_right"]%string sx σ Hdelay) as HX.
    destruct (_step_multiple _ sx σ) as [[[]|e|] σ1]; [|assumption|contradiction].
    destruct HX as (Hself1 & Hout1). steps.
    destruct ((z <? zs) && (err * 2 <? xs)).
    + rewrite run_bind.
      pose proof (step_multiple_exact ["z_axis"]%string sz σ1
                    ltac:(rewrite Hself1; exact Hdelay)) as HZ.
      destruct (_step_multiple _ sz σ1) as [[[]|e|] σ2]; [|assumption|contradiction].
      destruct HZ as (Hself2 & Hout2). steps.
      split; [reflexivity|]. split; [congruence|].
      rewrite Hout2, Hout1, Hself1. reflexivity.
    + steps. split; [reflexivity|]. split; [assumption|]. rewrite Hout1. reflexivity.
  - steps. destruct ((z <? zs) && (err * 2 <? xs)).
    + rewrite run_bind.
      pose proof (step_multiple_exact ["z_axis"]%string sz σ Hdelay) as HZ.
      destruct (_step_multiple _ sz σ) as [[[]|e|] σ2]; [|assumption|contradiction].
      destruct HZ as (Hself2 & Hout2). steps.
      split; [reflexivity|]. split; [assumption|]. rewrite Hout2. reflexivity.
    + steps. repeat split.
Qed.

(** The loop given fuel for [fuel] passes: it has logged the groups of
    those passes, and it is cut short exactly when it would go on. *)
Lemma interleave_exact xs zs sx sz fuel :
  ∀ v (σ : state),
    sleep_error (step_delay (self σ)) = None →
    match interleave fuel xs zs sx sz v σ with
    | (Raise _, _) => ¬ quiet
    | (o, σ') =>
        self σ' = self σ ∧
        out σ' = log_of (self σ) sx sz (schedule fuel xs zs v) ++ out σ ∧
        continuing xs zs (counters_after fuel xs zs v)
        = match o with OutOfFuel => true | _ => false end
    end.
Proof.
  induction fuel as [|fuel IH]; intros [[err x] z] σ Hdelay.
  - simpl. destruct ((x <? xs) || (z <? zs)); simpl; repeat split.
  - rewrite interleave_unroll. cbn [schedule counters_after].
    change (continuing xs zs (err, x, z)) with ((x <? xs) || (z <? zs)).
    destruct ((x <? xs) || (z <? zs)) eqn:Hc.
    + pose proof (loop_body_exact xs zs sx sz (err, x, z) σ Hdelay) as HB.
      destruct (loop_body xs zs sx sz (err, x, z) σ) as [[v'|e|] σ1];
        [|assumption|contradiction].
      destruct HB as (-> & Hself1 & Hout1).
      specialize (IH (next_counters xs zs (err, x, z)) σ1
                    ltac:(rewrite Hself1; exact Hdelay)).
      destruct (interleave fuel xs zs sx sz _ σ1) as [[[]|e|] σ2]; [|assumption|];
        destruct IH as (Hself2 & Hout2 & Hend);
        (split; [congruence|]); (split; [|exact Hend]);
        rewrite Hout2, Hout1, Hself1, log_of_app, app_assoc; reflexivity.
    + simpl. repeat split. exact Hc.
Qed.

Lemma entry_on_line xs zs : 0 ≤ xs → 0 ≤ zs →
  loop_inv xs zs (xs - zs, 0, 0) ∧ on_line xs zs (xs - zs, 0, 0).
Proof. unfold loop_inv, on_line. lia. Qed.

(** X2. A coordinated move that returns has logged its groups in the
    order of the loop's schedule, [|x_steps|] X groups and [|z_steps|] Z
    groups: every X group steps [x_left], then [x_right], then pauses, in
    direction FORWARD when [x_steps > 0] and BACKWARD otherwise; every Z
    group steps [z_axis] and pauses, in the direction of the sign of
    [z_steps].  Fuel for [max |x_steps| |z_steps|] passes is enough.  With
    a [step_delay] that [time.sleep] accepts, the move fails to return
    only when a physical step raises. *)
Theorem move_to_log fuel x_mm z_mm (σ : state) xs zs :
  sleep_error (step_delay (self σ)) = None →
  py_round ((x_mm - pos_x (position (self σ))) * steps_per_mm_x (self σ))%float = inr xs →
  py_round ((z_mm - pos_z (position (self σ))) * steps_per_mm_z (self σ))%float = inr zs →
  Z.max (Z.abs xs) (Z.abs zs) ≤ Z.of_nat fuel →
  match move_to fuel x_mm z_mm σ with
  | (Ok _, σ') =>
      let gs := schedule fuel (Z.abs xs) (Z.abs zs) (Z.abs xs - Z.abs zs, 0, 0) in
      out σ' = log_of (self σ) (if 0 <? xs then FORWARD else BACKWARD)
                 (if 0 <? zs then FORWARD else BACKWARD) gs ++ out σ ∧
      tally AxisX gs = Z.abs xs ∧ tally AxisZ gs = Z.abs zs
  | (Raise _, _) => ¬ quiet
  | (OutOfFuel, _) => False
  end.
Proof.
  intros Hdelay Hrx Hrz Hfuel. unfold move_to.
  rewrite run_bind, run_get, run_bind, run_lift, Hrx, run_bind, run_lift, Hrz, run_bind.
  pose proof (interleave_exact (Z.abs xs) (Z.abs zs)
                (if 0 <? xs then FORWARD else BACKWARD)
                (if 0 <? zs then FORWARD else BACKWARD) fuel
                (Z.abs xs - Z.abs zs, 0, 0) σ Hdelay) as H.
  destruct (entry_on_line (Z.abs xs) (Z.abs zs) ltac:(lia) ltac:(lia)) as [Hinv Hline].
  destruct (counters_after_spec fuel _ _ (Z.abs xs - Z.abs zs, 0, 0) Hinv Hline)
    as (Hinv' & _ & Hleft).
  destruct (schedule_tally fuel (Z.abs xs) (Z.abs zs) (Z.abs xs - Z.abs zs, 0, 0))
    as [Htx Htz].
  destruct (counters_after fuel (Z.abs xs) (Z.abs zs) (Z.abs xs - Z.abs zs, 0, 0))
    as [[err' x'] z'] eqn:Hv'.
  destruct Hinv' as (Hx' & Hz' & _).
  cbn [fst snd] in Hleft, Htx, Htz.
  destruct (interleave fuel _ _ _ _ (Z.abs xs - Z.abs zs, 0, 0) σ) as [[[]|e|] σ1]; [|assumption|].
  - destruct H as (Hself & Hout & _). steps. rewrite Hout.
    split; [reflexivity|]. cbv zeta. rewrite Htx, Htz. lia.
  - destruct H as (_ & _ & Hgo). simpl in Hgo.
    apply orb_prop in Hgo as [Hgo%Z.ltb_lt|Hgo%Z.ltb_lt]; lia.
Qed.

(** X3. At the end of every pass of the interleaving loop, the numbers x
    and z of X and Z groups issued so far are within half a step of the
    straight line to [(x_steps, z_steps)]:
    [2 |z * x_steps - x * z_steps| <= max x_steps z_steps].  (A loop cut
    short after [passes] passes is the loop at the end of that pass.)
    With a [step_delay] that [time.sleep] accepts, the loop raises only
    when a physical step raises. *)
Theorem interleave_tracks_line xs zs sx sz passes (σ : state) :
  sleep_error (step_delay (self σ)) = None →
  0 ≤ xs → 0 ≤ zs →
  match interleave passes xs zs sx sz (xs - zs, 0, 0) σ with
  | (Raise _, _) => ¬ quiet
  | (_, σ') =>
      ∃ evs, out σ' = evs ++ out σ ∧
        2 * Z.abs (z_groups evs * xs - x_groups evs * zs) ≤ Z.max xs zs
  end.
Proof.
  intros Hdelay Hxs Hzs.
  pose proof (interleave_exact xs zs sx sz passes (xs - zs, 0, 0) σ Hdelay) as H.
  destruct (entry_on_line xs zs Hxs Hzs) as [Hinv Hline].
  destruct (counters_after_spec passes _ _ (xs - zs, 0, 0) Hinv Hline) as (_ & Hline' & _).
  destruct (schedule_tally passes xs zs (xs - zs, 0, 0)) as [Htx Htz].
  destruct (log_of_groups (self σ) sx sz (schedule passes xs zs (xs - zs, 0, 0))) as [Hgx Hgz].
  destruct (counters_after passes xs zs (xs - zs, 0, 0)) as [[err' x'] z'].
  cbn [fst snd] in Htx, Htz. unfold on_line in Hline'.
  destruct (interleave passes xs zs sx sz (xs - zs, 0, 0) σ) as [[[]|e|] σ1]; [|assumption|];
    destruct H as (_ & Hout & _); eexists; (split; [exact Hout|]);
    rewrite Hgx, Hgz, Htx, Htz; replace (x' - 0) with x' by lia;
    replace (z' - 0) with z' by lia; exact Hline'.
Qed.

(** X4. On a controller whose [step_delay] [time.sleep] accepts, the
    interleaving loop makes exactly [max x_steps z_steps] passes: with
    fuel for that many it returns (or a physical step raises), with less
    it is cut short.  In every pass the axis with more steps to make
    steps. *)
Theorem interleave_passes xs zs sx sz fuel (σ : state) :
  sleep_error (step_delay (self σ)) = None →
  0 ≤ xs → 0 ≤ zs →
  match interleave fuel xs zs sx sz (xs - zs, 0, 0) σ with
  | (Ok _, _) => Z.max xs zs ≤ Z.of_nat fuel
  | (Raise _, _) => ¬ quiet
  | (OutOfFuel, _) => Z.of_nat fuel < Z.max xs zs
  end.
Proof.
  intros Hdelay Hxs Hzs.
  pose proof (interleave_exact xs zs sx sz fuel (xs - zs, 0, 0) σ Hdelay) as H.
  destruct (entry_on_line xs zs Hxs Hzs) as [Hinv Hline].
  destruct (counters_after_spec fuel _ _ (xs - zs, 0, 0) Hinv Hline) as (Hinv' & _ & Hleft).
  destruct (counters_after fuel xs zs (xs - zs, 0, 0)) as [[err' x'] z'].
  destruct Hinv' as (Hx' & Hz' & _). cbn [fst snd] in Hleft.
  destruct (interleave fuel xs zs sx sz (xs - zs, 0, 0) σ) as [[[]|e|] σ1]; [|assumption|];
    destruct H as (_ & _ & Hgo); simpl in Hgo.
  - apply orb_false_elim in Hgo as [Hgx%Z.ltb_ge Hgz%Z.ltb_ge]. lia.
  - apply orb_prop in Hgo as [Hgo%Z.ltb_lt|Hgo%Z.ltb_lt]; lia.
Qed.

(** *** A move along one axis only *)

Lemma interleave_x_only xs sx sz fuel :
  ∀ x (σ : state), 0 ≤ x ≤ xs → xs - x ≤ Z.of_nat fuel →
    interleave fuel xs 0 sx sz (xs, x, 0) σ
    = for_range (Z.to_nat (xs - x)) (_step_multiple ["x_left"; "x_right"]%string sx) σ.
Proof.
  induction fuel as [|fuel IH]; intros x σ Hx Hfuel.
  - replace x with xs by lia. rewrite Z.sub_diag. simpl.
    rewrite Z.ltb_irrefl. reflexivity.
  - rewrite interleave_unroll. destruct (Z.ltb_spec x xs) as [Hlt|Hge].
    + replace (Z.to_nat (xs - x)) with (S (Z.to_nat (xs - (x + 1)))) by lia.
      cbn [orb for_range]. unfold loop_body.
      replace (x <? xs) with true by (symmetry; apply Z.ltb_lt; lia).
      replace (- 0 <? xs * 2) with true by (symmetry; apply Z.ltb_lt; lia).
      cbn [andb]. rewrite Z.ltb_irrefl. cbn [andb]. rewrite !run_bind.
      destruct (_step_multiple _ sx σ) as [[[]|e|] σ1]; try reflexivity.
      steps. rewrite Z.sub_0_r. apply IH; lia.
    + replace x with xs by lia. rewrite Z.sub_diag. simpl. reflexivity.
Qed.

Lemma interleave_z_only zs sx sz fuel :
  ∀ z (σ : state), 0 ≤ z ≤ zs → zs - z ≤ Z.of_nat fuel →
    interleave fuel 0 zs sx sz (- zs, 0, z) σ
    = for_range (Z.to_nat (zs - z)) (_step_multiple ["z_axis"]%string sz) σ.
Proof.
  induction fuel as [|fuel IH]; intros z σ Hz Hfuel.
  - replace z with zs by lia. rewrite Z.sub_diag. simpl.
    rewrite Z.ltb_irrefl. reflexivity.
  - rewrite interleave_unroll. destruct (Z.ltb_spec z zs) as [Hlt|Hge].
    + replace (Z.to_nat (zs - z)) with (S (Z.to_nat (zs - (z + 1)))) by lia.
      cbn [orb for_range]. unfold loop_body.
      replace (z <? zs) with true by (symmetry; apply Z.ltb_lt; lia).
      replace (- zs * 2 <? 0) with true by (symmetry; apply Z.ltb_lt; lia).
      cbn [andb]. change (0 <? 0) with false. cbn [andb orb].
      rewrite !run_bind, run_ret. cbv beta iota. rewrite !run_bind.
      destruct (_step_multiple _ sz σ) as [[[]|e|] σ1]; try reflexivity.
      steps. rewrite Z.add_0_r. apply IH; lia.
    + replace z with zs by lia. rewrite Z.sub_diag. simpl. reflexivity.
Qed.

(** X5. A coordinated move whose other axis has no step to make is the
    single-axis move by the millimetre delta of its axis, as far as the
    outside world goes: both end the same way (return or the same
    exception), with the same rig and the same log.  They differ in
    Position only, which [move_to] assigns. *)
Theorem move_to_along_one_axis axis fuel x_mm z_mm (σ : state) :
  let target := {| pos_x := x_mm; pos_z := z_mm |} in
  let delta a := (coordinate target a - coordinate (position (self σ)) a)%float in
  py_round (delta (other axis) * steps_per_mm (self σ) (other axis))%float = inr 0 →
  (∀ n, py_round (delta axis * steps_per_mm (self σ) axis)%float = inr n →
        Z.abs n ≤ Z.of_nat fuel) →
  let r1 := move_to fuel x_mm z_mm σ in
  let r2 := move_axis axis (delta axis) σ in
  r1.1 = r2.1 ∧ hw r1.2 = hw r2.2 ∧ out r1.2 = out r2.2 ∧
  (r1.1 = Ok tt → position (self r1.2) = target).
Proof.
  intros target delta Hidle Hfuel r1 r2. subst r1 r2 delta target.
  destruct axis; cbn [other coordinate steps_per_mm pos_x pos_z] in *;
    unfold move_axis, move_to, move_x, move_z;
    rewrite !run_bind, !run_get, !run_bind, !run_lift.
  - destruct (py_round ((x_mm - pos_x (position (self σ))) * steps_per_mm_x (self σ))%float)
      as [e|xs] eqn:Hrx; [repeat split; discriminate|].
    specialize (Hfuel xs eq_refl). rewrite run_bind, run_lift, Hidle.
    change (Z.abs 0) with 0. rewrite Z.sub_0_r, run_bind.
    rewrite (interleave_x_only (Z.abs xs) _ _ fuel 0 σ) by lia. rewrite Z.sub_0_r.
    destruct (Z.eqb_spec xs 0) as [->|Hnz].
    + simpl. repeat split.
    + rewrite run_bind.
      destruct (for_range _ _ σ) as [[[]|e|] σ1]; simpl; repeat split; discriminate.
  - rewrite Hidle, run_bind, run_lift.
    destruct (py_round ((z_mm - pos_z (position (self σ))) * steps_per_mm_z (self σ))%float)
      as [e|zs] eqn:Hrz; [repeat split; discriminate|].
    specialize (Hfuel zs eq_refl).
    change (Z.abs 0) with 0. rewrite Z.sub_0_l, run_bind.
    rewrite (interleave_z_only (Z.abs zs) _ _ fuel 0 σ) by lia. rewrite Z.sub_0_r.
    destruct (Z.eqb_spec zs 0) as [->|Hnz].
    + simpl. repeat split.
    + rewrite run_bind.
      destruct (for_range _ _ σ) as [[[]|e|] σ1]; simpl; repeat split; discriminate.
Qed.

(** *** Distances that are no numbers, targets already reached *)

Lemma nan_mul (a b : float) : is_nan a → py_round (a * b)%float = inl ValueError.
Proof. unfold is_nan, py_round. intros Ha. rewrite mul_spec, Ha. reflexivity. Qed.

Lemma nan_sub (a b : float) : is_nan a → is_nan (a - b)%float.
Proof. unfold is_nan. intros Ha. rewrite sub_spec, Ha. reflexivity. Qed.

Lemma sub_self (a : float) : is_finite a = true → is_zero (a - a)%float.
Proof.
  unfold is_finite, is_zero. intros Ha. rewrite sub_spec.
  destruct (Prim2SF a) as [s|s| |s m e]; try discriminate.
  - exists false. destruct s; reflexivity.
  - exists false. unfold SF64sub, SFsub. rewrite Z.sub_diag. reflexivity.
Qed.

Lemma set_same_position (σ : state) p :
  position (self σ) = p → set_self (set_position p (self σ)) σ = σ.
Proof. destruct σ as [[] ? ?]. simpl. intros ->. reflexivity. Qed.

(** X6. A move asked for a NaN raises before anything is done: a
    single-axis move and a coordinated move with a NaN x target raise
    ValueError, a coordinated move with a NaN z target raises (ValueError,
    or what the x delta raised first), and in each case the state is the
    state of the call: no step, no pause, Position as it was. *)
Theorem nan_move_raises :
  (∀ axis mm (σ : state), is_nan mm → move_axis axis mm σ = (Raise ValueError, σ)) ∧
  (∀ fuel x_mm z_mm (σ : state), is_nan x_mm →
     move_to fuel x_mm z_mm σ = (Raise ValueError, σ)) ∧
  (∀ fuel x_mm z_mm (σ : state), is_nan z_mm →
     ∃ e, move_to fuel x_mm z_mm σ = (Raise e, σ)).
Proof.
  split; [|split].
  - intros axis mm σ Hnan.
    destruct axis; unfold move_axis, move_x, move_z;
      rewrite run_bind, run_get, run_bind, run_lift, (nan_mul _ _ Hnan); reflexivity.
  - intros fuel x_mm z_mm σ Hnan. unfold move_to.
    rewrite run_bind, run_get, run_bind, run_lift.
    rewrite (nan_mul _ _ (nan_sub _ (pos_x (position (self σ))) Hnan)). reflexivity.
  - intros fuel x_mm z_mm σ Hnan. unfold move_to.
    rewrite run_bind, run_get, run_bind, run_lift.
    destruct (py_round _) as [e|xs]; [exists e; reflexivity|].
    rewrite run_bind, run_lift.
    rewrite (nan_mul _ _ (nan_sub _ (pos_z (position (self σ))) Hnan)).
    exists ValueError. reflexivity.
Qed.

(** X7. A coordinated move to the position the controller is at, with
    finite coordinates and calibration, does nothing at all: it returns in
    the state it was called in (the deltas are zero, no group is issued,
    and the assignment changes nothing).  So [move_to] can be repeated. *)
Theorem move_to_current_position fuel x_mm z_mm (σ : state) :
  position (self σ) = {| pos_x := x_mm; pos_z := z_mm |} →
  is_finite x_mm = true → is_finite z_mm = true →
  is_finite (steps_per_mm_x (self σ)) = true →
  is_finite (steps_per_mm_z (self σ)) = true →
  move_to fuel x_mm z_mm σ = (Ok tt, σ).
Proof.
  intros Hpos Hx Hz Hsx Hsz.
  rewrite move_to_no_steps.
  - rewrite set_same_position by assumption. reflexivity.
  - rewrite Hpos. cbn [pos_x]. rewrite (py_round_mul_zero _ _ (sub_self _ Hx)), Hsx.
    reflexivity.
  - rewrite Hpos. cbn [pos_z]. rewrite (py_round_mul_zero _ _ (sub_self _ Hz)), Hsz.
    reflexivity.
Qed.

(** *** The stepper table *)

Lemma bind_stepper_insert the_kit name channel (acc : gmap string (option Handle)) :
  ∃ v, bind_stepper REAL_HARDWARE the_kit acc (name, channel) = <[name := v]> acc ∧
       (REAL_HARDWARE = true →
        ∀ h, kit_getattr the_kit ("stepper" +:+ pretty channel) = Some h → v = Some h).
Proof.
  unfold bind_stepper, kit_hasattr.
  destruct REAL_HARDWARE; [|exists None; split; [reflexivity|discriminate]].
  destruct (kit_getattr the_kit _) as [h|]; cbn [andb].
  - exists (Some h). split; [reflexivity|]. intros _ h' [= ->]. reflexivity.
  - exists None. split; [reflexivity|]. intros _ h' [=].
Qed.

Lemma init_steppers_resolved the_kit name channel channels h :
  NoDup channels.*1 → (name, channel) ∈ channels →
  REAL_HARDWARE = true → kit_getattr the_kit ("stepper" +:+ pretty channel) = Some h →
  _init_steppers the_kit channels !! name = Some (Some h).
Proof.
  unfold _init_steppers. generalize (∅ : gmap string (option Handle)).
  induction channels as [|[n c] rest IH]; intros acc Hnd Hin Hreal Hkit.
  - inversion Hin.
  - simpl in Hnd. apply NoDup_cons in Hnd as [Hfresh Hnd].
    apply elem_of_cons in Hin as [Heq|Hin].
    + injection Heq as <- <-. cbn [fold_left].
      rewrite init_steppers_fresh by assumption.
      destruct (bind_stepper_insert the_kit name channel acc) as (v & -> & Hv).
      rewrite (Hv Hreal h Hkit). apply lookup_insert_eq.
    + cbn [fold_left]. apply IH; assumption.
Qed.

Lemma init_steppers_keys the_kit channels :
  ∀ (acc : gmap string (option Handle)) name,
    is_Some (fold_left (bind_stepper REAL_HARDWARE the_kit) channels acc !! name)
    ↔ name ∈ channels.*1 ∨ is_Some (acc !! name).
Proof.
  induction channels as [|[n c] rest IH]; intros acc name; cbn [fold_left].
  - rewrite fmap_nil, elem_of_nil. tauto.
  - rewrite IH, fmap_cons, elem_of_cons. cbn [fst].
    destruct (bind_stepper_insert the_kit n c acc) as (v & -> & _).
    rewrite lookup_insert_is_Some.
    destruct (decide (n = name)) as [->|Hne]; [tauto|].
    split; [intros [?|[?|[_ ?]]]; auto; congruence | intros [[?|?]|?]; auto; congruence].
Qed.

(** X8. On real hardware a motor whose channel the kit has is bound to
    the kit's stepper object: the controller is built, the motor's entry
    is that object, and from then on, wherever the controller has moved
    to, stepping the motor calls [onestep] of that object once, with the
    configured style and the asked direction, on the rig as it is; the
    call is logged and its effect on the rig kept. *)
Theorem resolved_motor_is_driven cfg style cal channels name channel h :
  getattr_Stepper (default "SINGLE"%string (cfg_step_style cfg)) = Some style →
  cfg_calibration cfg = Some cal →
  cfg_motors cfg = Some channels → NoDup channels.*1 → (name, channel) ∈ channels →
  REAL_HARDWARE = true → MotorKit ("stepper" +:+ pretty channel) = Some h →
  ∃ mc, __init__ cfg = inr mc ∧ steppers mc !! name = Some (Some h) ∧
    step_style mc = style ∧
    ∀ (σ : state) d,
      steppers (self σ) = steppers mc → step_style (self σ) = step_style mc →
      _step_motor name d σ
      = match onestep h style d (hw σ) with
        | (None, w) => (Ok tt, emit (EvOnestep name h style d) (set_hw w σ))
        | (Some e, w) => (Raise e, emit (EvOnestepRaised name h style d e) (set_hw w σ))
        end.
Proof.
  intros Hstyle Hcal Hmotors Hnd Hin Hreal Hkit.
  unfold __init__. rewrite Hstyle, Hcal, Hmotors. eexists. split; [reflexivity|].
  cbn [steppers step_style default from_option id].
  assert (Hbound : _init_steppers (if REAL_HARDWARE then Some MotorKit else None) channels
                   !! name = Some (Some h)).
  { apply (init_steppers_resolved _ name channel); try assumption.
    rewrite Hreal. exact Hkit. }
  split; [exact Hbound|]. split; [reflexivity|].
  intros σ d Hσ Hst. unfold _step_motor. rewrite Hσ, Hst. cbn [steppers step_style].
  unfold id. rewrite Hbound, Hreal. reflexivity.
Qed.

(** X9. The keys of [steppers] are the motor names of the configuration,
    all of them and no other, whatever the hardware: a name that does not
    resolve is a key too (bound to None). *)
Theorem configured_motors_are_keys cfg mc :
  __init__ cfg = inr mc →
  ∀ name, is_Some (steppers mc !! name) ↔ name ∈ (default [] (cfg_motors cfg)).*1.
Proof.
  unfold __init__. intros Hinit name.
  destruct (getattr_Stepper _); [|discriminate].
  destruct (cfg_calibration cfg); [|discriminate].
  injection Hinit as <-. cbn [steppers]. unfold _init_steppers.
  rewrite init_steppers_keys, lookup_empty. split; [intros [H|[? [=]]]; exact H | auto].
Qed.

(** *** What every method leaves alone *)

Section Frames.

Variable R : state → state → Prop.
Hypothesis R_refl : ∀ σ, R σ σ.
Hypothesis R_trans : ∀ σ1 σ2 σ3, R σ1 σ2 → R σ2 σ3 → R σ1 σ3.
Hypothesis R_sleep : ∀ d σ, R σ (emit (EvSleep d) σ).
Hypothesis R_step : ∀ name d, within R (_step_motor name d).

Lemma within_bind {A B} (m : M A) (f : A → M B) :
  within R m → (∀ a, within R (f a)) → within R (m ≫= f).
Proof.
  intros Hm Hf σ. rewrite run_bind. specialize (Hm σ).
  destruct (m σ) as [[a|e|] σ1]; simpl in *; try assumption.
  exact (R_trans _ _ _ Hm (Hf a σ1)).
Qed.

Lemma within_pure {A} (m : M A) : (∀ σ, (m σ).2 = σ) → within R m.
Proof. intros H σ. rewrite H. apply R_refl. Qed.

Lemma within_step_multiple names d : within R (_step_multiple names d).
Proof.
  unfold _step_multiple. apply within_bind.
  - induction names as [|nm names IH]; simpl.
    + apply within_pure. reflexivity.
    + apply within_bind; [apply R_step | intros _; exact IH].
  - intros _. apply within_bind; [apply within_pure; reflexivity|].
    intros mc σ. unfold time_sleep. destruct (sleep_error _); [apply R_refl | apply R_sleep].
Qed.

Lemma within_for_range n (body : M unit) : within R body → within R (for_range n body).
Proof.
  intros Hb. induction n as [|n IH]; simpl.
  - apply within_pure. reflexivity.
  - apply within_bind; [assumption | intros _; exact IH].
Qed.

Lemma within_test_step d motor count : within R (_step d motor count).
Proof.
  unfold _step. destruct count as [count|]; [|apply within_pure; reflexivity].
  apply within_bind; [apply within_for_range, within_step_multiple|].
  intros _. apply within_pure. reflexivity.
Qed.

Hypothesis R_put : ∀ p σ, R σ (set_self (set_position p (self σ)) σ).

Lemma within_lift {A} (r : exn + A) : within R (lift (Handle := Handle) (HW := HW) r).
Proof. apply within_pure. intros σ. destruct r; reflexivity. Qed.

Lemma within_move_axis axis mm : within R (move_axis axis mm).
Proof.
  destruct axis; unfold move_axis, move_x, move_z;
    (apply within_bind; [apply within_pure; reflexivity | intros mc]);
    (apply within_bind; [apply within_lift | intros n]);
    (destruct (n =? 0); [apply within_pure; reflexivity|]);
    (apply within_bind; [apply within_for_range, within_step_multiple | intros _]);
    (apply within_bind; [apply within_pure; reflexivity | intros mc']);
    intros σ; apply R_put.
Qed.

Lemma within_loop_body xs zs sx sz v : within R (loop_body xs zs sx sz v).
Proof.
  destruct v as [[err x] z]. unfold loop_body.
  apply within_bind.
  - destruct (_ && _); [|apply within_pure; reflexivity].
    apply within_bind; [apply within_step_multiple | intros _; apply within_pure; reflexivity].
  - intros [err' x']. apply within_bind.
    + destruct (_ && _); [|apply within_pure; reflexivity].
      apply within_bind;
        [apply within_step_multiple | intros _; apply within_pure; reflexivity].
    + intros [err'' z']. apply within_pure. reflexivity.
Qed.

Lemma within_interleave fuel xs zs sx sz : ∀ v, within R (interleave fuel xs zs sx sz v).
Proof.
  induction fuel as [|fuel IH]; intros [[err x] z]; cbn [interleave];
    (destruct (_ || _); [|apply within_pure; reflexivity]).
  - apply within_pure. reflexivity.
  - apply within_bind; [apply within_loop_body | exact IH].
Qed.

Lemma within_move_to fuel x_mm z_mm : within R (move_to fuel x_mm z_mm).
Proof.
  unfold move_to.
  apply within_bind; [apply within_pure; reflexivity | intros mc].
  apply within_bind; [apply within_lift | intros xs].
  apply within_bind; [apply within_lift | intros zs].
  apply within_bind; [apply within_interleave | intros _].
  apply within_bind; [apply within_pure; reflexivity | intros mc1].
  apply within_bind; [intros σ; apply R_put | intros _].
  apply within_bind; [apply within_pure; reflexivity | intros mc2].
  intros σ. apply R_put.
Qed.

End Frames.

Lemma untouched_refl (σ : state) : untouched σ σ.
Proof. split; [reflexivity|]. exists []. split; reflexivity. Qed.

Lemma untouched_trans (σ1 σ2 σ3 : state) :
  untouched σ1 σ2 → untouched σ2 σ3 → untouched σ1 σ3.
Proof.
  intros (Hhw1 & evs1 & Hout1 & Hc1) (Hhw2 & evs2 & Hout2 & Hc2).
  split; [congruence|]. exists (evs2 ++ evs1).
  rewrite Hout2, Hout1, app_assoc, count_app, Hc1, Hc2. split; reflexivity.
Qed.

Lemma untouched_emit (ev : @event Handle) (σ : state) :
  is_physical ev = false → untouched σ (emit ev σ).
Proof.
  intros Hev. split; [reflexivity|]. exists [ev]. simpl. rewrite Hev.
  split; reflexivity.
Qed.

Lemma untouched_step_motor name d :
  REAL_HARDWARE = false → within untouched (_step_motor name d).
Proof.
  intros Hreal σ. rewrite step_motor_simulated by (left; exact Hreal).
  apply untouched_emit. reflexivity.
Qed.

(** X10. Without real hardware nothing reaches the rig: every single-axis
    and coordinated move, every jog of the control panel, [Home] and every
    run of the motor test window leaves the rig as it found it and logs no
    call to a physical channel, however it ends. *)
Theorem stub_mode_leaves_rig :
  REAL_HARDWARE = false →
  (∀ axis mm, within untouched (move_axis axis mm)) ∧
  (∀ fuel x_mm z_mm, within untouched (move_to fuel x_mm z_mm)) ∧
  (∀ distance, within untouched (_move_x distance) ∧ within untouched (_move_z distance)) ∧
  within untouched (_home (Handle := Handle) (HW := HW)) ∧
  (∀ d motor count, within untouched (_step d motor count)).
Proof.
  intros Hreal.
  pose proof (λ d σ, untouched_emit (EvSleep d) σ eq_refl) as Hsleep.
  pose proof (λ name d, untouched_step_motor name d Hreal) as Hstep.
  assert (Hput : ∀ p (σ : state), untouched σ (set_self (set_position p (self σ)) σ))
    by (intros p σ; split; [reflexivity|]; exists []; split; reflexivity).
  assert (Hshow : within untouched (_update_position (Handle := Handle) (HW := HW)))
    by (intros σ; apply untouched_emit; reflexivity).
  assert (Hmove : ∀ axis mm, within untouched (move_axis axis mm))
    by exact (within_move_axis untouched untouched_refl untouched_trans Hsleep Hstep Hput).
  split; [exact Hmove|]. split; [|split; [|split]].
  - exact (within_move_to untouched untouched_refl untouched_trans Hsleep Hstep Hput).
  - intros distance. split; intros σ; unfold _move_x, _move_z, try_showerror.
    + pose proof (within_bind untouched untouched_trans _ (λ _, _update_position)
                    (Hmove AxisX distance) (λ _, Hshow) σ) as H.
      cbn [move_axis] in H.
      destruct ((move_x distance ;; _update_position) σ) as [[[]|e|] σ1]; exact H.
    + pose proof (within_bind untouched untouched_trans _ (λ _, _update_position)
                    (Hmove AxisZ distance) (λ _, Hshow) σ) as H.
      cbn [move_axis] in H.
      destruct ((move_z distance ;; _update_position) σ) as [[[]|e|] σ1]; exact H.
  - intros σ. unfold _home.
    apply (untouched_trans _ (set_self (set_position {| pos_x := 0; pos_z := 0 |} (self σ)) σ));
      [apply Hput|].
    apply (untouched_trans _ (_update_position (set_self (set_position
             {| pos_x := 0; pos_z := 0 |} (self σ)) σ)).2); [apply Hshow|].
    apply untouched_emit. reflexivity.
  - exact (within_test_step untouched untouched_refl untouched_trans Hsleep Hstep).
Qed.

(** *** The control panel *)

(** Stepping returns or raises, and leaves the controller object as it
    is, whatever the pause does. *)
Lemma for_each_ends names d (σ : state) :
  match for_each names (λ nm, _step_motor nm d) σ with
  | (OutOfFuel, _) => False
  | (_, σ') => self σ' = self σ
  end.
Proof.
  revert σ. induction names as [|nm names IH]; intros σ; [reflexivity|].
  cbn [for_each]. rewrite run_bind.
  pose proof (step_motor_spec REAL_HARDWARE onestep nm d σ) as H1.
  destruct (_step_motor nm d σ) as [[[]|e|] σ1]; [| |contradiction].
  - destruct H1 as (Hself1 & _). specialize (IH σ1).
    destruct (for_each names _ σ1) as [[[]|e|] σ2]; [| |contradiction]; congruence.
  - destruct H1 as (Hself1 & _). exact Hself1.
Qed.

Lemma step_multiple_ends names d (σ : state) :
  match _step_multiple names d σ with
  | (OutOfFuel, _) => False
  | (_, σ') => self σ' = self σ
  end.
Proof.
  unfold _step_multiple. rewrite run_bind.
  pose proof (for_each_ends names d σ) as H.
  destruct (for_each names _ σ) as [[[]|e|] σ1]; [| |contradiction].
  - rewrite run_bind, run_get. unfold time_sleep.
    destruct (sleep_error _); exact H.
  - exact H.
Qed.

Lemma for_range_ends n names d (σ : state) :
  match for_range n (_step_multiple names d) σ with
  | (OutOfFuel, _) => False
  | (_, σ') => self σ' = self σ
  end.
Proof.
  revert σ. induction n as [|n IH]; intros σ; [reflexivity|].
  cbn [for_range]. rewrite run_bind.
  pose proof (step_multiple_ends names d σ) as H1.
  destruct (_step_multiple names d σ) as [[[]|e|] σ1]; [| |contradiction].
  - specialize (IH σ1).
    destruct (for_range n _ σ1) as [[[]|e|] σ2]; [| |contradiction]; congruence.
  - exact H1.
Qed.

Lemma move_axis_ends axis mm (σ : state) :
  match move_axis axis mm σ with
  | (Ok _, _) => True
  | (Raise _, σ') => self σ' = self σ
  | (OutOfFuel, _) => False
  end.
Proof.
  destruct axis; unfold move_axis, move_x, move_z;
    rewrite run_bind, run_get, run_bind, run_lift;
    (destruct (py_round _) as [e|n]; [reflexivity|]);
    (destruct (n =? 0); [exact I|]); rewrite run_bind;
    match goal with |- context [for_range ?k (_step_multiple ?l ?d) σ] =>
      pose proof (for_range_ends k l d σ) as H;
      destruct (for_range k (_step_multiple l d) σ) as [[[]|e|] σ1]
    end; first [exact I | exact H].
Qed.

Lemma displayed_step (ev : @event Handle) evs :
  is_driver_call ev = true → displayed (ev :: evs) = displayed evs.
Proof. destruct ev; simpl; intros H; try reflexivity; discriminate. Qed.

Lemma display_step_motor name d :
  within (λ σ σ', displayed (out σ') = displayed (out σ)) (_step_motor name d).
Proof.
  intros σ. pose proof (step_motor_spec REAL_HARDWARE onestep name d σ) as H.
  destruct (_step_motor name d σ) as [[[]|e|] σ1]; [| |contradiction]; cbn [snd].
  - destruct H as (_ & ev & -> & Hname & _). apply displayed_step.
    unfold is_driver_call. rewrite Hname. reflexivity.
  - destruct H as (_ & _ & _ & h & st & ->). reflexivity.
Qed.

Lemma display_move_axis axis mm :
  within (λ σ σ', displayed (out σ') = displayed (out σ)) (move_axis axis mm).
Proof.
  apply within_move_axis; try reflexivity.
  - intros σ1 σ2 σ3 H1 H2. congruence.
  - apply display_step_motor.
Qed.

(** The two jog handlers, by axis. *)
Lemma jog_spec axis distance (σ : state) :
  match (match axis with AxisX => _move_x | AxisZ => _move_z end) distance σ with
  | (Ok None, σ') =>
      ∃ σ1, move_axis axis distance σ = (Ok tt, σ1) ∧
            σ' = emit (EvLabels (pos_x (position (self σ1))) (pos_z (position (self σ1)))) σ1
  | (Ok (Some box), σ') =>
      move_axis axis distance σ = (Raise (box_exn box), σ') ∧
      box_title box = "Error"%string ∧
      box_text box = match axis with
                     | AxisX => "X axis move failed: "
                     | AxisZ => "Z axis move failed: "
                     end%string ∧
      self σ' = self σ ∧ displayed (out σ') = displayed (out σ)
  | (Raise _, _) => False
  | (OutOfFuel, _) => False
  end.
Proof.
  pose proof (move_axis_ends axis distance σ) as Hend.
  pose proof (display_move_axis axis distance σ) as Hshow. cbv beta in Hshow.
  destruct axis; unfold _move_x, _move_z, try_showerror; rewrite run_bind;
    cbn [move_axis] in *;
    match goal with |- context [?m distance σ] =>
      destruct (m distance σ) as [[[]|e|] σ1]
    end; try contradiction;
    first [ exists σ1; split; reflexivity
          | repeat split; assumption ].
Qed.

(** X11. A jog of the control panel never raises.  When the move returns
    the labels are rewritten with the controller's position.  When the
    move raises (a distance that is no number, a step that fails), the
    handler shows the error box with that exception and stops there: the
    controller object, Position included, is as before the jog and the
    labels still show what they showed. *)
Theorem jog_reports_failure distance (σ : state) :
  match _move_x distance σ with
  | (Ok None, σ') => in_sync σ' ∧ ∃ σ1, move_x distance σ = (Ok tt, σ1) ∧ out σ' ≠ out σ1
  | (Ok (Some box), σ') =>
      move_x distance σ = (Raise (box_exn box), σ') ∧
      box_title box = "Error"%string ∧ box_text box = "X axis move failed: "%string ∧
      self σ' = self σ ∧ displayed (out σ') = displayed (out σ)
  | (Raise _, _) => False
  | (OutOfFuel, _) => False
  end ∧
  match _move_z distance σ with
  | (Ok None, σ') => in_sync σ' ∧ ∃ σ1, move_z distance σ = (Ok tt, σ1) ∧ out σ' ≠ out σ1
  | (Ok (Some box), σ') =>
      move_z distance σ = (Raise (box_exn box), σ') ∧
      box_title box = "Error"%string ∧ box_text box = "Z axis move failed: "%string ∧
      self σ' = self σ ∧ displayed (out σ') = displayed (out σ)
  | (Raise _, _) => False
  | (OutOfFuel, _) => False
  end.
Proof.
  assert (Hnew : ∀ (ev : @event Handle) l, ev :: l ≠ l).
  { intros ev l H. apply (f_equal length) in H. simpl in H. lia. }
  split.
  - pose proof (jog_spec AxisX distance σ) as H. cbv beta iota in H.
    destruct (_move_x distance σ) as [[[box|]|e|] σ']; try exact H.
    destruct H as (σ1 & Hrun & ->). split; [reflexivity|].
    exists σ1. split; [exact Hrun | apply Hnew].
  - pose proof (jog_spec AxisZ distance σ) as H. cbv beta iota in H.
    destruct (_move_z distance σ) as [[[box|]|e|] σ']; try exact H.
    destruct H as (σ1 & Hrun & ->). split; [reflexivity|].
    exists σ1. split; [exact Hrun | apply Hnew].
Qed.

(** X12. The panel stays in sync: if the labels show the controller's
    position, they still do after a jog along X or Z, whether it succeeded
    or failed, and after [Home]. *)
Theorem panel_stays_in_sync distance (σ : state) :
  in_sync σ →
  in_sync (_move_x distance σ).2 ∧ in_sync (_move_z distance σ).2 ∧ in_sync (_home σ).2.
Proof.
  intros Hsync. unfold in_sync in *.
  assert (Hjog : ∀ axis,
            in_sync ((match axis with AxisX => _move_x | AxisZ => _move_z end) distance σ).2).
  { intros axis. pose proof (jog_spec axis distance σ) as H. unfold in_sync.
    destruct ((match axis with AxisX => _move_x | AxisZ => _move_z end) distance σ)
      as [[[box|]|e|] σ']; try contradiction; cbn [snd].
    - destruct H as (_ & _ & _ & Hself & Hshow). rewrite Hshow, Hself. exact Hsync.
    - destruct H as (σ1 & _ & ->). reflexivity. }
  split; [exact (Hjog AxisX)|]. split; [exact (Hjog AxisZ)|]. reflexivity.
Qed.

(** *** The motor test window *)

(** X13. [_step] of the motor test window steps the selected motor
    [|count|] times in the direction of the button pressed, each step
    followed by the pause, whatever the sign of [count]: the count and its
    negation leave the same state.  The status line shows the parsed count
    with its sign.  With a [step_delay] that [time.sleep] accepts, [_step]
    fails to return only when a physical step raises.  Position is never
    updated (however [_step] ends, the controller object is as it was),
    and a count that is no integer only shows the error box. *)
Theorem test_step_ignores_sign :
  (∀ direction motor (σ : state),
     _step direction motor None σ
     = (Ok (InvalidInput "Invalid Input" "Please enter an integer step count."), σ)) ∧
  (∀ direction motor count (σ : state),
     sleep_error (step_delay (self σ)) = None →
     match _step direction motor (Some count) σ with
     | (Ok w, σ') =>
         w = StatusLine ("Moved " +:+ motor +:+ " " +:+ pretty count +:+ " steps "
                         +:+ (match direction with FORWARD => "+" | _ => "-" end)) ∧
         out σ' = mjoin (replicate (Z.to_nat (Z.abs count))
                           (group_log (self σ) [motor] direction)) ++ out σ
     | (Raise _, _) => ¬ quiet
     | (OutOfFuel, _) => False
     end) ∧
  (∀ direction motor count (σ : state),
     self (_step direction motor count σ).2 = self σ) ∧
  (∀ direction motor count (σ : state),
     (_step direction motor (Some (- count)) σ).2 = (_step direction motor (Some count) σ).2).
Proof.
  split; [reflexivity|]. split; [|split].
  - intros direction motor count σ Hdelay. unfold _step. rewrite run_bind.
    pose proof (for_range_exact (Z.to_nat (Z.abs count)) [motor] direction σ Hdelay) as H.
    destruct (for_range _ _ σ) as [[[]|e|] σ1]; [| |contradiction].
    + destruct H as (_ & Hout). rewrite run_ret. split; [reflexivity | exact Hout].
    + exact H.
  - intros direction motor [count|] σ; [|reflexivity]. unfold _step. rewrite run_bind.
    pose proof (for_range_ends (Z.to_nat (Z.abs count)) [motor] direction σ) as H.
    destruct (for_range _ _ σ) as [[[]|e|] σ1]; [| |contradiction]; exact H.
  - intros direction motor count σ. unfold _step. rewrite Z.abs_opp, !run_bind.
    destruct (for_range _ _ σ) as [[[]|e|] σ1]; reflexivity.
Qed.

(** *** A delay the pause refuses *)

Lemma step_multiple_refused names d (σ : state) e :
  sleep_error (step_delay (self σ)) = Some e →
  match _step_multiple names d σ with
  | (Raise e', σ') =>
      self σ' = self σ ∧
      (quiet → e' = e ∧
               out σ' = rev (map (λ nm, step_event (self σ) nm d) names) ++ out σ)
  | _ => False
  end.
Proof.
  intros Hdelay. unfold _step_multiple. rewrite run_bind.
  pose proof (for_each_exact names d σ) as H.
  pose proof (for_each_ends names d σ) as Hself.
  destruct (for_each names _ σ) as [[[]|e'|] σ1]; [| |contradiction].
  - destruct H as (_ & Hout). rewrite run_bind, run_get. unfold time_sleep.
    rewrite Hself, Hdelay. split; [exact Hself|]. intros _. split; [reflexivity | exact Hout].
  - split; [exact Hself|]. intros Hq. contradiction.
Qed.

(** X15. A [step_delay] that [time.sleep] refuses (negative, NaN, too
    large) makes every move that has a step to make fail at its first
    pause, with or without hardware: the move never returns; it raises
    with the controller object, Position included, as it was; and when no
    physical step raises first, the exception is the one of [time.sleep]
    and a single-axis move has then stepped each motor of its axis once
    and made no pause. *)
Theorem refused_delay_stops_move :
  (∀ axis mm (σ : state) steps e,
     sleep_error (step_delay (self σ)) = Some e →
     py_round (mm * steps_per_mm (self σ) axis)%float = inr steps → steps ≠ 0 →
     match move_axis axis mm σ with
     | (Raise e', σ') =>
         self σ' = self σ ∧
         (quiet →
          e' = e ∧
          out σ' = rev (map (λ nm, step_event (self σ) nm
                                     (if 0 <? steps then FORWARD else BACKWARD))
                          (motors axis)) ++ out σ)
     | _ => False
     end) ∧
  (∀ fuel x_mm z_mm (σ : state) xs zs e,
     sleep_error (step_delay (self σ)) = Some e →
     py_round ((x_mm - pos_x (position (self σ))) * steps_per_mm_x (self σ))%float = inr xs →
     py_round ((z_mm - pos_z (position (self σ))) * steps_per_mm_z (self σ))%float = inr zs →
     xs ≠ 0 ∨ zs ≠ 0 →
     match move_to (S fuel) x_mm z_mm σ with
     | (Raise e', σ') => self σ' = self σ ∧ (quiet → e' = e)
     | _ => False
     end).
Proof.
  split.
  - intros axis mm σ steps e Hdelay Hround Hnz.
    assert (Hn : ∃ n, Z.to_nat (Z.abs steps) = S n)
      by (destruct (Z.to_nat (Z.abs steps)) eqn:Hn; [lia | eauto]).
    destruct Hn as (n & Hn). apply Z.eqb_neq in Hnz.
    destruct axis; simpl in Hround; unfold move_axis, move_x, move_z;
      rewrite run_bind, run_get, run_bind, run_lift, Hround, Hnz, run_bind, Hn;
      cbn [for_range]; rewrite run_bind;
      match goal with |- context [_step_multiple ?l ?d σ] =>
        pose proof (step_multiple_refused l d σ e Hdelay) as H;
        destruct (_step_multiple l d σ) as [[[]|e'|] σ1]
      end; try contradiction; exact H.
  - intros fuel x_mm z_mm σ xs zs e Hdelay Hrx Hrz Hnz. unfold move_to.
    rewrite run_bind, run_get, run_bind, run_lift, Hrx, run_bind, run_lift, Hrz, run_bind.
    rewrite interleave_unroll.
    assert (Hinv : loop_inv (Z.abs xs) (Z.abs zs) (Z.abs xs - Z.abs zs, 0, 0))
      by (unfold loop_inv; lia).
    assert (Hlt : 0 < Z.abs xs ∨ 0 < Z.abs zs) by lia.
    pose proof (guards_cover _ _ _ _ _ Hinv Hlt) as Hg.
    replace ((0 <? Z.abs xs) || (0 <? Z.abs zs)) with true
      by (symmetry; destruct Hlt as [H%Z.ltb_lt|H%Z.ltb_lt]; rewrite H;
          [reflexivity | apply orb_true_r]).
    unfold loop_body. rewrite run_bind.
    destruct ((0 <? Z.abs xs) && (- Z.abs zs <? (Z.abs xs - Z.abs zs) * 2)).
    + rewrite run_bind.
      pose proof (step_multiple_refused ["x_left"; "x_right"]%string
                    (if 0 <? xs then FORWARD else BACKWARD) σ e Hdelay) as H.
      destruct (_step_multiple _ _ σ) as [[[]|e'|] σ1]; try contradiction.
      destruct H as (Hself & He). split; [exact Hself|]. intros Hq. exact (proj1 (He Hq)).
    + destruct Hg as [Hg|Hg]; [discriminate|]. rewrite run_ret. cbv beta iota.
      rewrite run_bind, Hg, run_bind.
      pose proof (step_multiple_refused ["z_axis"]%string
                    (if 0 <? zs then FORWARD else BACKWARD) σ e Hdelay) as H.
      destruct (_step_multiple _ _ σ) as [[[]|e'|] σ1]; try contradiction.
      destruct H as (Hself & He). split; [exact Hself|]. intros Hq. exact (proj1 (He Hq)).
Qed.

End MoreFacts.

(** ** More of the program on the two rigs *)

(** Back by 0.025 mm on the bench: two X groups, BACKWARD. *)
Lemma single_axis_move_log_witness :
  sleep_error (step_delay (self (stub_state origin))) = None ∧
  py_round (-0.025 * steps_per_mm (self (stub_state origin)) AxisX)%float = inr (-2) ∧
  match move_axis false no_rig AxisX (-0.025) (stub_state origin) with
  | (Ok _, σ') =>
      out σ' = mjoin (replicate (Z.to_nat (Z.abs (-2)))
                        (group_log false (self (stub_state origin)) (motors AxisX)
                           (if 0 <? -2 then FORWARD else BACKWARD)))
               ++ out (stub_state origin)
  | (Raise _, _) => ¬ quiet false no_rig
  | (OutOfFuel, _) => False
  end.
Proof.
  split; [vm_compute; reflexivity|]. split; [vm_compute; reflexivity|].
  apply (single_axis_move_log false no_rig AxisX (-0.025) (stub_state origin) (-2)).
  - vm_compute. reflexivity.
  - vm_compute. reflexivity.
  - lia.
Defined.

Lemma move_to_log_witness :
  match move_to false no_rig 5 0.0625 (-0.02) (stub_state origin) with
  | (Ok _, σ') =>
      let gs := schedule 5 (Z.abs 5) (Z.abs (-2)) (Z.abs 5 - Z.abs (-2), 0, 0) in
      out σ' = log_of false (self (stub_state origin)) (if 0 <? 5 then FORWARD else BACKWARD)
                 (if 0 <? -2 then FORWARD else BACKWARD) gs ++ out (stub_state origin) ∧
      tally AxisX gs = Z.abs 5 ∧ tally AxisZ gs = Z.abs (-2)
  | (Raise _, _) => ¬ quiet false no_rig
  | (OutOfFuel, _) => False
  end.
Proof.
  apply (move_to_log false no_rig 5 0.0625 (-0.02) (stub_state origin) 5 (-2)).
  - vm_compute. reflexivity.
  - vm_compute. reflexivity.
  - vm_compute. reflexivity.
  - simpl. lia.
Defined.

(** The order for five X groups and two Z groups. *)
Lemma schedule_5_2 :
  schedule 5 5 2 (5 - 2, 0, 0) = [AxisX; AxisX; AxisZ; AxisX; AxisX; AxisZ; AxisX].
Proof. reflexivity. Qed.

(** After three of the five passes. *)
Lemma interleave_tracks_line_witness :
  (0 ≤ 5 ∧ 0 ≤ 2) ∧
  match interleave false no_rig 3 5 2 FORWARD FORWARD (5 - 2, 0, 0) (stub_state origin) with
  | (Raise _, _) => ¬ quiet false no_rig
  | (_, σ') =>
      ∃ evs, out σ' = evs ++ out (stub_state origin) ∧
        2 * Z.abs (z_groups evs * 5 - x_groups evs * 2) ≤ Z.max 5 2
  end.
Proof.
  split; [lia|].
  apply (interleave_tracks_line false no_rig 5 2 FORWARD FORWARD 3 (stub_state origin));
    [vm_compute; reflexivity | lia | lia].
Defined.

Lemma interleave_passes_witness :
  (0 ≤ 5 ∧ 0 ≤ 2) ∧
  match interleave false no_rig 3 5 2 FORWARD FORWARD (5 - 2, 0, 0) (stub_state origin) with
  | (Ok _, _) => Z.max 5 2 ≤ Z.of_nat 3
  | (Raise _, _) => ¬ quiet false no_rig
  | (OutOfFuel, _) => Z.of_nat 3 < Z.max 5 2
  end.
Proof.
  split; [lia|].
  apply (interleave_passes false no_rig 5 2 FORWARD FORWARD 3 (stub_state origin));
    [vm_compute; reflexivity | lia | lia].
Defined.

(** To (0.0625, 0.001) from the origin: the Z delta is a tenth of a step. *)
Lemma move_to_along_one_axis_witness :
  py_round ((0.001 - 0) * 100)%float = inr 0 ∧
  let r1 := move_to false no_rig 5 0.0625 0.001 (stub_state origin) in
  let r2 := move_axis false no_rig AxisX (0.0625 - 0) (stub_state origin) in
  r1.1 = r2.1 ∧ hw r1.2 = hw r2.2 ∧ out r1.2 = out r2.2 ∧
  (r1.1 = Ok tt → position (self r1.2) = {| pos_x := 0.0625; pos_z := 0.001 |}).
Proof.
  split; [vm_compute; reflexivity|].
  apply (move_to_along_one_axis false no_rig AxisX 5 0.0625 0.001 (stub_state origin)).
  - vm_compute. reflexivity.
  - intros n Hn. vm_compute in Hn. injection Hn as <-. simpl. lia.
Defined.

Lemma nan_move_raises_witness :
  is_nan nan ∧
  move_axis false no_rig AxisX nan (stub_state origin) = (Raise ValueError, stub_state origin).
Proof.
  split; [vm_compute; reflexivity|].
  apply (proj1 (nan_move_raises false no_rig) AxisX nan (stub_state origin)).
  vm_compute. reflexivity.
Defined.

Lemma move_to_current_position_witness :
  move_to false no_rig 0 0.13 (-2) (stub_state {| pos_x := 0.13; pos_z := -2 |})
  = (Ok tt, stub_state {| pos_x := 0.13; pos_z := -2 |}).
Proof.
  apply (move_to_current_position false no_rig 0 0.13 (-2)
           (stub_state {| pos_x := 0.13; pos_z := -2 |}));
    [reflexivity | vm_compute; reflexivity ..].
Defined.

(** [x_left] is on channel 1, which the kit has. *)
Lemma resolved_motor_is_driven_witness :
  ∃ mc, __init__ true two_port_kit default_cfg = inr mc ∧
    steppers mc !! "x_left"%string = Some (Some 1%N) ∧
    step_style mc = SINGLE ∧
    ∀ (σ : @state N nat) d,
      steppers (self σ) = steppers mc → step_style (self σ) = step_style mc →
      _step_motor true (flaky_rig 1) "x_left" d σ
      = match flaky_rig 1 1%N SINGLE d (hw σ) with
        | (None, w) => (Ok tt, emit (EvOnestep "x_left" 1%N SINGLE d) (set_hw w σ))
        | (Some e, w) =>
            (Raise e, emit (EvOnestepRaised "x_left" 1%N SINGLE d e) (set_hw w σ))
        end.
Proof.
  apply (resolved_motor_is_driven true two_port_kit (flaky_rig 1) default_cfg SINGLE
           {| cal_steps_per_mm_x := None; cal_steps_per_mm_z := None |}
           [("x_left", 1); ("x_right", 2); ("z_axis", 3)]%string "x_left" 1 1%N);
    try reflexivity.
  - apply (bool_decide_unpack _). vm_compute. reflexivity.
  - apply (bool_decide_unpack _). vm_compute. reflexivity.
Defined.

Lemma configured_motors_are_keys_witness :
  __init__ false two_port_kit default_cfg = inr (stub_controller origin) ∧
  (is_Some (steppers (stub_controller origin) !! "z_axis"%string)
   ↔ "z_axis"%string ∈ (default [] (cfg_motors default_cfg)).*1) ∧
  (is_Some (steppers (stub_controller origin) !! "y_axis"%string)
   ↔ "y_axis"%string ∈ (default [] (cfg_motors default_cfg)).*1).
Proof.
  split; [reflexivity|].
  split; apply (configured_motors_are_keys false two_port_kit default_cfg
                  (stub_controller origin) eq_refl).
Defined.

Lemma stub_mode_leaves_rig_witness :
  untouched (stub_state origin)
    (move_to false no_rig 7 0.0625 (-0.02) (stub_state origin)).2.
Proof.
  exact (proj1 (proj2 (stub_mode_leaves_rig false no_rig eq_refl)) 7%nat 0.0625%float
           (-0.02)%float (stub_state origin)).
Defined.

(** A failed jog on the rig whose second call fails: the box is shown and
    the panel is still in sync. *)
Lemma jog_on_the_flaky_rig :
  let σ := emit (EvLabels 0 0) (real_state origin) in
  ∃ σ', _move_x true (flaky_rig 1) 0.025 σ
        = (Ok (Some {| box_title := "Error"; box_text := "X axis move failed: ";
                       box_exn := OSError |}), σ') ∧
        in_sync σ' ∧ hw σ' = 2%nat.
Proof. eexists. split; [vm_compute; reflexivity|]. split; vm_compute; reflexivity. Qed.

Lemma panel_stays_in_sync_witness :
  in_sync (_move_x true (flaky_rig 1) 0.025 (emit (EvLabels 0 0) (real_state origin))).2 ∧
  in_sync (_move_z true (flaky_rig 1) 0.025 (emit (EvLabels 0 0) (real_state origin))).2 ∧
  in_sync (_home (emit (EvLabels 0 0) (real_state origin))).2.
Proof.
  apply (panel_stays_in_sync true (flaky_rig 1) 0.025
           (emit (EvLabels 0 0) (real_state origin))).
  reflexivity.
Defined.

(** Two steps asked with a minus sign on the Forward button. *)
Lemma forward_with_a_negative_count :
  ∃ σ', step_forward false no_rig "z_axis" (Some (-2)) (stub_state origin)
        = (Ok (StatusLine "Moved z_axis -2 steps +"), σ') ∧
        out σ' = [EvSleep 0.01; EvStub "z_axis" FORWARD;
                  EvSleep 0.01; EvStub "z_axis" FORWARD] ∧
        position (self σ') = origin.
Proof. eexists. split; [vm_compute; reflexivity|]. split; reflexivity. Qed.

Lemma test_step_ignores_sign_witness :
  sleep_error (step_delay (self (stub_state origin))) = None ∧
  match _step false no_rig FORWARD "z_axis" (Some (-2)) (stub_state origin) with
  | (Ok w, σ') =>
      w = StatusLine ("Moved " +:+ "z_axis" +:+ " " +:+ pretty (-2) +:+ " steps " +:+ "+") ∧
      out σ' = mjoin (replicate (Z.to_nat (Z.abs (-2)))
                        (group_log false (self (stub_state origin)) ["z_axis"%string] FORWARD))
               ++ out (stub_state origin)
  | (Raise _, _) => ¬ quiet false no_rig
  | (OutOfFuel, _) => False
  end.
Proof.
  split; [vm_compute; reflexivity|].
  apply (proj1 (proj2 (test_step_ignores_sign false no_rig)) FORWARD "z_axis"%string (-2)
           (stub_state origin)).
  vm_compute. reflexivity.
Defined.

(** A negative delay in the configuration: the first group steps its
    motors, and then the pause refuses the delay, with no hardware at
    all; Position is not updated. *)
Lemma refused_delay_stops_move_witness :
  sleep_error (step_delay (self negative_delay_state)) = Some ValueError ∧
  py_round (0.025 * steps_per_mm (self negative_delay_state) AxisX)%float = inr 2 ∧
  match move_axis false no_rig AxisX 0.025 negative_delay_state with
  | (Raise e', σ') =>
      self σ' = self negative_delay_state ∧
      (quiet false no_rig →
       e' = ValueError ∧
       out σ' = rev (map (λ nm, step_event false (self negative_delay_state) nm
                                  (if 0 <? 2 then FORWARD else BACKWARD))
                       (motors AxisX)) ++ out negative_delay_state)
  | _ => False
  end.
Proof.
  split; [vm_compute; reflexivity|]. split; [vm_compute; reflexivity|].
  apply (proj1 (refused_delay_stops_move false no_rig) AxisX 0.025%float
           negative_delay_state 2 ValueError).
  - vm_compute. reflexivity.
  - vm_compute. reflexivity.
  - lia.
Defined.

Lemma negative_delay_raises :
  ∃ σ', move_x false no_rig 0.025 negative_delay_state = (Raise ValueError, σ') ∧
        out σ' = [EvStub "x_right" FORWARD; EvStub "x_left" FORWARD] ∧
        position (self σ') = origin.
Proof. eexists. split; [vm_compute; reflexivity|]. split; reflexivity. Qed.

(** X14. [E-STOP] reaches the children of the window only: it disables
    those of them that are buttons or spinboxes and never a widget inside
    a frame.  The panel keeps all its buttons and its spinbox inside
    frames, so on the panel [_emergency_stop] changes no widget at all,
    while its box says that all controls are disabled. *)
Theorem emergency_stop_disables_nothing :
  (∀ children,
     map widget_children (_emergency_stop children).1 = map widget_children children ∧
     Forall2 (λ w w', match widget_cls w with
                      | TkButton | TkSpinbox => widget_st w' = DISABLED
                      | _ => w' = w
                      end) children (_emergency_stop children).1) ∧
  _emergency_stop _create_widgets
  = (_create_widgets, ("EMERGENCY STOP", "All controls disabled!")%string).
Proof.
  split; [|reflexivity].
  intros children. unfold _emergency_stop. cbn [fst]. split.
  - rewrite map_map. apply map_ext. intros [name cls st below]. destruct cls; reflexivity.
  - induction children as [|[name cls st below] rest IH]; constructor; [|exact IH].
    destruct cls; reflexivity.
Qed.
